(** * The two-dimensional Vicsek model ([vicsek/model.py])

    A shallow embedding of [expand_to_array] and of the class [VicsekModel]
    and the properties of its update step, its initialisation, its order
    parameter and its evolution drivers.

    Numbers.  A finite float64 is read as the real number it denotes, so the
    development is about the arithmetic the program performs, not about
    signed zeros or overflow, and about binary64 rounding in one place only:
    the addition that ends [np.mod], whose rounding decides whether a
    wrapped coordinate can reach the box length ([Rounding], [np_mod]).  The
    one place where the program leaves the finite numbers, a numpy division
    by zero, is kept: [float64] adds [NaN] and the two infinities to the
    reals and [np_divide] returns them the way numpy does (a warning, never
    an exception).

    Arrays.  A one-dimensional numpy array is a list, an array of shape
    (N, 2) a list of pairs, a matrix a list of rows, a masked array a list of
    options ([None] where the mask is set). *)

From Stdlib Require Import String DecimalString.
From Stdlib Require Import Reals Lra Lia ZArith List Bool.
Import ListNotations.

Local Open Scope string_scope.

Local Open Scope R_scope.

(** ** Python results *)

Inductive exception : Type :=
| ValueError (msg : string)
| IndexError (msg : string)
| ZeroDivisionError (msg : string).

Inductive result (A : Type) : Type :=
| Ok (a : A)
| Raise (e : exception).

Arguments Ok {A} a.
Arguments Raise {A} e.

Definition is_ValueError {A : Type} (r : result A) : Prop :=
  exists msg, r = Raise (ValueError msg).

Definition raises {A : Type} (r : result A) : Prop :=
  exists e, r = Raise e.

(** ** Numbers *)

Definition Rltb (x y : R) : bool := if Rlt_dec x y then true else false.

Definition Reqb (x y : R) : bool := if Req_dec_T x y then true else false.

Inductive float64 : Type :=
| Finite (x : R)
| NaN
| Inf (negative : bool).

(** numpy's [true_divide] on float64: [x / 0] is [nan] for [x = 0] and an
    infinity of the sign of [x] otherwise. *)
Definition np_divide (a b : float64) : float64 :=
  match a, b with
  | NaN, _ | _, NaN => NaN
  | Inf _, Inf _ => NaN
  | Inf s, Finite y => Inf (xorb s (Rltb y 0))
  | Finite _, Inf _ => Finite 0
  | Finite x, Finite y =>
      if Reqb y 0
      then (if Reqb x 0 then NaN else Inf (Rltb x 0))
      else Finite (x / y)
  end.

Definition np_add (a b : float64) : float64 :=
  match a, b with
  | NaN, _ | _, NaN => NaN
  | Inf s, Inf t => if Bool.eqb s t then Inf s else NaN
  | Inf s, Finite _ | Finite _, Inf s => Inf s
  | Finite x, Finite y => Finite (x + y)
  end.

Definition np_negative (a : float64) : float64 :=
  match a with
  | NaN => NaN
  | Inf s => Inf (negb s)
  | Finite x => Finite (- x)
  end.

Definition np_subtract (a b : float64) : float64 := np_add a (np_negative b).

Definition np_multiply (a b : float64) : float64 :=
  match a, b with
  | NaN, _ | _, NaN => NaN
  | Inf s, Inf t => Inf (xorb s t)
  | Inf s, Finite y | Finite y, Inf s =>
      if Reqb y 0 then NaN else Inf (xorb s (Rltb y 0))
  | Finite x, Finite y => Finite (x * y)
  end.

Definition np_square (a : float64) : float64 := np_multiply a a.

(** [np.sqrt]: [nan] on negative numbers. *)
Definition np_sqrt (a : float64) : float64 :=
  match a with
  | NaN => NaN
  | Inf s => if s then NaN else Inf false
  | Finite x => if Rltb x 0 then NaN else Finite (sqrt x)
  end.

(** [ndarray.sum] and [ndarray.mean] of a one-dimensional array. *)
Definition Rsum (l : list R) : R := fold_right Rplus 0 l.

Definition np_sum (l : list float64) : float64 :=
  fold_left np_add l (Finite 0).

Definition np_mean (l : list float64) : float64 :=
  np_divide (np_sum l) (Finite (INR (length l))).

(** [ndarray.var(ddof)]: the squared deviations from the mean are summed and
    divided by [max (n - ddof) 0]. *)
Definition np_var (ddof : Z) (l : list float64) : float64 :=
  let arrmean := np_mean l in
  let x := map (fun a => np_square (np_subtract a arrmean)) l in
  np_divide (np_sum x) (Finite (IZR (Z.max (Z.of_nat (length l) - ddof) 0))).

(** [int(x)] of a float: truncation towards zero. *)
Definition int_of_float (x : R) : Z :=
  if Rltb x 0 then Zceil x else Zfloor x.

(** Rounding of a real number to binary64, where the program's result
    depends on it. *)
Class Rounding : Type := {
  fl : R -> R
}.

(** What the model asks of a rounding, and round-to-nearest gives: it keeps
    the order, and it leaves the integers of 53 bits, which binary64
    holds, as they are. *)
Definition faithful_rounding `{Rounding} : Prop :=
  (forall x y : R, x <= y -> fl x <= fl y) /\
  (forall z : Z, (Z.abs z <= 2 ^ 53)%Z -> fl (IZR z) = IZR z).

(** C's [fmod x y] for [y <> 0]: [x] less the multiple of [y] that the
    truncated quotient gives; the result is exact in binary64. *)
Definition fmod (x y : R) : R := x - y * IZR (int_of_float (x / y)).

(** [np.mod x y] for [y <> 0], as numpy computes it on floats: [fmod], and
    when the remainder is not zero and its sign is not the sign of the
    divisor, the divisor is added, a floating-point addition. *)
Definition np_mod `{Rounding} (x y : R) : R :=
  let m := fmod x y in
  if Reqb m 0 then 0
  else if xorb (Rltb y 0) (Rltb m 0) then fl (m + y)
  else m.

(** [np.arctan2 y x]. *)
Definition np_arctan2 (y x : R) : R :=
  if Rltb 0 x then atan (y / x)
  else if Rltb x 0 then (if Rltb y 0 then atan (y / x) - PI else atan (y / x) + PI)
  else if Rltb 0 y then PI / 2
  else if Rltb y 0 then - (PI / 2)
  else 0.

(** ** [expand_to_array] *)

(** [ParticleProperty = Union[float, Iterable[float]]]. *)
Inductive ParticleProperty : Type :=
| Scalar (x : R)
| Sequence (l : list R).

(** [if not hasattr(new, "__iter__"): new = [new]]. *)
Definition as_sequence (new : ParticleProperty) : list R :=
  match new with
  | Scalar x => [x]
  | Sequence l => l
  end.

(** [new[-1]]. *)
Definition last_item (new : list R) : result R :=
  match new with
  | [] => Raise (IndexError "list index out of range")
  | x :: l => Ok (last l x)
  end.

(** [array[: len(new)] = new] on an array at least as long as [new]. *)
Definition assign_prefix (array new : list R) : list R :=
  new ++ skipn (length new) array.

(** The message is not an f-string in the source: the braces are literal. *)
Definition too_many_values : string :=
  "Too many values provided in setter: {setter}. Expected {instance.particles} but got {len(new)}".

(** The wrapper up to the call of the decorated setter: the array handed to
    that setter. *)
Definition expand_to_array (particles : Z) (new : ParticleProperty)
  : result (list R) :=
  let new := as_sequence new in
  if (Z.of_nat (length new) >? particles)%Z
  then Raise (ValueError too_many_values)
  else
    match last_item new with
    | Raise e => Raise e
    | Ok fill_value =>
        let array := repeat fill_value (Z.to_nat particles) in
        let array := assign_prefix array new in
        Ok (rev array)
    end.

Definition bind {A B : Type} (r : result A) (k : A -> result B) : result B :=
  match r with
  | Ok a => k a
  | Raise e => Raise e
  end.

Notation "x <- r ;; k" := (bind r (fun x => k))
  (at level 61, r at next level, right associativity).

(** The body of the [weights] setter: [np.any(new < 0)]. *)
Definition check_weights (new : list R) : result (list R) :=
  if existsb (fun w => Rltb w 0) new
  then Raise (ValueError "The weights must be positive.")
  else Ok new.

(** What the four decorated setters store. *)
Definition set_speed (particles : Z) (new : ParticleProperty) :=
  expand_to_array particles new.
Definition set_radius (particles : Z) (new : ParticleProperty) :=
  expand_to_array particles new.
Definition set_noise (particles : Z) (new : ParticleProperty) :=
  expand_to_array particles new.
Definition set_weights (particles : Z) (new : ParticleProperty) :=
  array <- expand_to_array particles new ;; check_weights array.

(** ** The random source *)

(** [numpy.random.Generator] is not part of the repository: the model takes
    it as an interface.  [default_rng] builds a generator from an integer
    seed, [next_double] is one draw of [Generator.random], a float of
    [[0, 1)], with the generator after the draw. *)
Class BitGenerator (G : Type) : Type := {
  default_rng : Z -> G;
  next_double : G -> R * G
}.

Section Model.

Context {G : Type} `{BitGenerator G} `{Rounding}.

(** [rng.random(n)]: [n] successive draws. *)
Fixpoint random (n : nat) (g : G) : list R * G :=
  match n with
  | O => ([], g)
  | S k =>
      let (u, g1) := next_double g in
      let (us, g2) := random k g1 in
      (u :: us, g2)
  end.

(** [rng.random((n, 2))]: the array is filled row by row. *)
Fixpoint random2 (n : nat) (g : G) : list (R * R) * G :=
  match n with
  | O => ([], g)
  | S k =>
      let (u, g1) := next_double g in
      let (v, g2) := next_double g1 in
      let (ps, g3) := random2 k g2 in
      ((u, v) :: ps, g3)
  end.

(** ** The class *)

Record VicsekModel : Type := {
  _length : Z;
  _density : R;
  _speed : list R;
  _noise : list R;
  _radius : list R;
  _weights : list R;
  _positions : list (R * R);
  _headings : list R;
  _current_step : Z;
  _trajectory : list (Z * float64);
  _rng : G;
  _reset_flag : bool
}.

(** Elementwise operations on arrays of one shape. *)
Fixpoint zip_with {A B C : Type} (f : A -> B -> C) (l : list A) (l' : list B)
  : list C :=
  match l, l' with
  | a :: t, b :: t' => f a b :: zip_with f t t'
  | _, _ => []
  end.

(** [int(self._density * self.length ** 2)]. *)
Definition count_particles (length : Z) (density : R) : Z :=
  int_of_float (density * IZR (length ^ 2)).

Definition particles (self : VicsekModel) : Z :=
  count_particles (_length self) (_density self).

Definition direction (h : R) : R * R := (cos h, sin h).

Definition scale (s : R) (v : R * R) : R * R := (s * fst v, s * snd v).

(** [np.expand_dims(speed, 1) * np.stack((np.cos(headings), np.sin(headings)), axis=1)]. *)
Definition velocity_array (speed headings : list R) : list (R * R) :=
  zip_with scale speed (map direction headings).

Definition velocities (self : VicsekModel) : list (R * R) :=
  velocity_array (_speed self) (_headings self).

Definition mean (l : list R) : float64 := np_mean (map Finite l).

(** [np.sqrt(np.square(velocities.mean(axis=0)).sum()) / speed.mean()]. *)
Definition order_parameter_of (speed headings : list R) : float64 :=
  let v := velocity_array speed headings in
  let mx := mean (map fst v) in
  let my := mean (map snd v) in
  np_divide (np_sqrt (np_add (np_square mx) (np_square my))) (mean speed).

Definition order_parameter (self : VicsekModel) : float64 :=
  order_parameter_of (_speed self) (_headings self).

(** A Python [dict] keeps its keys in insertion order; [d[k] = v] replaces
    the value of a key that is present and appends a new key otherwise. *)
Fixpoint dict_set {V : Type} (k : Z) (v : V) (d : list (Z * V)) : list (Z * V) :=
  match d with
  | [] => [(k, v)]
  | (k', v') :: t =>
      if (k =? k')%Z then (k, v) :: t else (k', v') :: dict_set k v t
  end.

(** [seed_rng]: with no seed numpy seeds the generator from fresh operating
    system entropy, which the model receives as [os_entropy]. *)
Definition seed_rng (seed : option Z) (os_entropy : Z) : G :=
  match seed with
  | Some s => default_rng s
  | None => default_rng os_entropy
  end.

(** The state [init_state] builds from the configuration attributes. *)
Definition fresh_state (reproducible : bool) (os_entropy : Z)
    (length : Z) (density : R) (speed noise radius weights : list R)
  : VicsekModel :=
  let rng :=
    if reproducible then seed_rng (Some 123456%Z) os_entropy
    else seed_rng None os_entropy in
  let n := Z.to_nat (count_particles length density) in
  let (u, rng1) := random2 n rng in
  let positions := map (fun p => (fst p * IZR length, snd p * IZR length)) u in
  let (v, rng2) := random n rng1 in
  let headings := map (fun x => x * 2 * PI) v in
  {| _length := length;
     _density := density;
     _speed := speed;
     _noise := noise;
     _radius := radius;
     _weights := weights;
     _positions := positions;
     _headings := headings;
     _current_step := 0;
     _trajectory := [(0%Z, order_parameter_of speed headings)];
     _rng := rng2;
     _reset_flag := true |}.

Definition init_state (reproducible : bool) (os_entropy : Z)
    (self : VicsekModel) : VicsekModel :=
  fresh_state reproducible os_entropy (_length self) (_density self)
    (_speed self) (_noise self) (_radius self) (_weights self).

(** [VicsekModel.__init__]: the four setters run before any state exists,
    then [init_state(reproducible=False)]. *)
Definition new_model (length : Z) (density : R)
    (speed noise radius weights : ParticleProperty) (os_entropy : Z)
  : result VicsekModel :=
  let n := count_particles length density in
  speed' <- set_speed n speed ;;
  noise' <- set_noise n noise ;;
  radius' <- set_radius n radius ;;
  weights' <- set_weights n weights ;;
  Ok (fresh_state false os_entropy length density speed' noise' radius' weights').

(** The attribute the [length] and [density] setters assign. *)
Definition with_length (new : Z) (self : VicsekModel) : VicsekModel :=
  {| _length := new; _density := _density self; _speed := _speed self;
     _noise := _noise self; _radius := _radius self;
     _weights := _weights self; _positions := _positions self;
     _headings := _headings self; _current_step := _current_step self;
     _trajectory := _trajectory self; _rng := _rng self;
     _reset_flag := _reset_flag self |}.

Definition with_density (new : R) (self : VicsekModel) : VicsekModel :=
  {| _length := _length self; _density := new; _speed := _speed self;
     _noise := _noise self; _radius := _radius self;
     _weights := _weights self; _positions := _positions self;
     _headings := _headings self; _current_step := _current_step self;
     _trajectory := _trajectory self; _rng := _rng self;
     _reset_flag := _reset_flag self |}.

(** ** [step] *)

Definition euclidean (p q : R * R) : R :=
  sqrt ((fst p - fst q) * (fst p - fst q) + (snd p - snd q) * (snd p - snd q)).

(** [squareform(pdist(X))]: [pdist] computes the distance of the rows [i < j]
    of [X] and [squareform] mirrors it into a square matrix of zero
    diagonal. *)
Definition distance_matrix (X : list (R * R)) : list (list R) :=
  let n := length X in
  map (fun i =>
    map (fun j =>
      if (i =? j)%nat then 0
      else euclidean (nth (Nat.min i j) X (0, 0)) (nth (Nat.max i j) X (0, 0)))
      (seq 0 n))
    (seq 0 n).

(** [distance_matrix < self.radius]: the matrix of shape (N, N) is compared
    with the vector of shape (N,), which numpy lays along the last axis, so
    each row is compared with [radius] element by element. *)
Definition adjacency_matrix (self : VicsekModel) : list (list bool) :=
  map (fun row => zip_with Rltb row (_radius self))
    (distance_matrix (_positions self)).

(** [np.broadcast_to(a, (n, n))] of a vector of length [n]. *)
Definition broadcast_to (a : list R) (n : nat) : list (list R) := repeat a n.

(** [np.ma.array(data, mask=mask)]. *)
Definition ma_array (data : list (list R)) (mask : list (list bool))
  : list (list (option R)) :=
  zip_with (zip_with (fun d (m : bool) => if m then None else Some d)) data mask.

Definition headings_matrix (self : VicsekModel) : list (list (option R)) :=
  ma_array
    (broadcast_to (_headings self) (Z.to_nat (particles self)))
    (map (map negb) (adjacency_matrix self)).

(** [weights * f(headings_matrix)]: again the vector runs along the last
    axis; masked entries stay masked. *)
Definition weighted (weights : list R) (f : R -> R)
    (matrix : list (list (option R))) : list (list (option R)) :=
  map (fun row => zip_with (fun w x => option_map (fun h => w * f h) x) weights row)
    matrix.

(** [.sum(axis=1)] of a masked matrix: masked entries count for nothing.  (A
    row masked throughout sums to the masked constant, whose data is 0.) *)
Definition ma_sum (row : list (option R)) : R :=
  fold_right (fun x acc => match x with Some v => v + acc | None => acc end) 0 row.

Definition sum_of_sines (self : VicsekModel) : list R :=
  map ma_sum (weighted (_weights self) sin (headings_matrix self)).

Definition sum_of_cosines (self : VicsekModel) : list R :=
  map ma_sum (weighted (_weights self) cos (headings_matrix self)).

Definition add2 (p v : R * R) : R * R := (fst p + fst v, snd p + snd v).

Definition wrap (length : Z) (p : R * R) : R * R :=
  (np_mod (fst p) (IZR length), np_mod (snd p) (IZR length)).

Definition step (self : VicsekModel) : VicsekModel :=
  let (u, rng) := random (Z.to_nat (particles self)) (_rng self) in
  let headings :=
    zip_with Rplus
      (zip_with np_arctan2 (sum_of_sines self) (sum_of_cosines self))
      (zip_with Rmult (map (fun x => x - 0.5) u) (_noise self)) in
  let positions :=
    zip_with add2 (_positions self) (velocity_array (_speed self) headings) in
  let positions := map (wrap (_length self)) positions in
  {| _length := _length self;
     _density := _density self;
     _speed := _speed self;
     _noise := _noise self;
     _radius := _radius self;
     _weights := _weights self;
     _positions := positions;
     _headings := headings;
     _current_step := _current_step self + 1;
     _trajectory := _trajectory self;
     _rng := rng;
     _reset_flag := _reset_flag self |}.

(** ** [evolve] and [evolve_ensemble] *)

(** The progress bar, as far as the class uses it: [update()] adds one to
    the counter [n], [set_description] replaces the label. *)
Record tqdm : Type := {
  total : Z;
  n : Z;
  desc : string
}.

Definition update (pbar : tqdm) : tqdm :=
  {| total := total pbar; n := n pbar + 1; desc := desc pbar |}.

Definition set_description (d : string) (pbar : tqdm) : tqdm :=
  {| total := total pbar; n := n pbar; desc := d |}.

(** [if pbar is not None: pbar.update()]. *)
Definition notify (pbar : option tqdm) : option tqdm := option_map update pbar.

Definition record_order_parameter (self : VicsekModel) : VicsekModel :=
  {| _length := _length self; _density := _density self; _speed := _speed self;
     _noise := _noise self; _radius := _radius self;
     _weights := _weights self; _positions := _positions self;
     _headings := _headings self; _current_step := _current_step self;
     _trajectory :=
       dict_set (_current_step self) (order_parameter self) (_trajectory self);
     _rng := _rng self;
     _reset_flag := _reset_flag self |}.

(** The loop of the tracking branch.  Mutations made before an exception stay
    in place, so the state and the bar are returned in both cases. *)
Fixpoint evolve_tracking (steps : nat) (interval : Z) (pbar : option tqdm)
    (self : VicsekModel) : VicsekModel * option tqdm * result unit :=
  match steps with
  | O => (self, pbar, Ok tt)
  | S k =>
      let self := step self in
      if (interval =? 0)%Z
      then (self, pbar, Raise (ZeroDivisionError "integer modulo by zero"))
      else
        let self :=
          if (_current_step self mod interval =? 0)%Z
          then record_order_parameter self else self in
        evolve_tracking k interval (notify pbar) self
  end.

(** The loop of the other branch: [for _ in range(steps): self.step()]. *)
Fixpoint step_times (steps : nat) (self : VicsekModel) : VicsekModel :=
  match steps with
  | O => self
  | S k => step_times k (step self)
  end.

Definition evolve (steps : Z) (track_order_parameter : bool) (interval : Z)
    (pbar : option tqdm) (self : VicsekModel)
  : VicsekModel * option tqdm * result unit :=
  if track_order_parameter
  then evolve_tracking (Z.to_nat steps) interval pbar self
  else (step_times (Z.to_nat steps) self, notify pbar, Ok tt).

Definition str (i : nat) : string :=
  DecimalString.NilZero.string_of_uint (Nat.to_uint i).

(** The body of the loop of [evolve_ensemble] for the replicas [i, i+1, ...];
    [os_entropy i] seeds replica [i]; [samples] are the entries of
    [order_parameters] written so far. *)
Fixpoint replicas (count i : nat) (steps : Z) (os_entropy : nat -> Z)
    (pbar : tqdm) (samples : list float64) (self : VicsekModel)
  : VicsekModel * tqdm * result (list float64) :=
  match count with
  | O => (self, pbar, Ok samples)
  | S k =>
      let self := init_state false (os_entropy i) self in
      match evolve steps false 10 (Some pbar) self with
      | (self, pbar', Raise e) =>
          (self, match pbar' with Some p => p | None => pbar end, Raise e)
      | (self, pbar', Ok _) =>
          let pbar := match pbar' with Some p => p | None => pbar end in
          let pbar :=
            set_description ("Completed " ++ str i ++ " simulations") pbar in
          replicas k (S i) steps os_entropy pbar
            (samples ++ [order_parameter self]) self
      end
  end.

(** [np.empty] refuses a negative size; the variance is numpy's, which
    divides by [max (n - 1) 0] without raising. *)
Definition evolve_ensemble (steps ensemble_size : Z) (os_entropy : nat -> Z)
    (self : VicsekModel) : VicsekModel * tqdm * result (float64 * float64) :=
  let pbar :=
    {| total := ensemble_size * steps; n := 0;
       desc := "Completed 0 simulations" |} in
  if (ensemble_size <? 0)%Z
  then (self, pbar, Raise (ValueError "negative dimensions are not allowed"))
  else
    match replicas (Z.to_nat ensemble_size) 0 steps os_entropy pbar [] self with
    | (self, pbar, Raise e) => (self, pbar, Raise e)
    | (self, pbar, Ok order_parameters) =>
        (self, pbar, Ok (np_mean order_parameters, np_var 1 order_parameters))
    end.

(** ** The [length] and [density] setters *)

(** The product of [velocities] on arrays that need not be of one length:
    numpy stretches [speed], of shape (n, 1), against the directions, of
    shape (m, 2), when [n = m], [n = 1] or [m = 1], and refuses every other
    pair of shapes. *)
Definition broadcast_velocities (speed headings : list R)
  : result (list (R * R)) :=
  let d := map direction headings in
  if (length speed =? length d)%nat then Ok (zip_with scale speed d)
  else if (length speed =? 1)%nat then Ok (map (scale (hd 0 speed)) d)
  else if (length d =? 1)%nat then Ok (map (fun s => scale s (hd (0, 0) d)) speed)
  else Raise (ValueError
    ("operands could not be broadcast together with shapes ("
       ++ str (length speed) ++ ",1) (" ++ str (length d) ++ ",2) ")).

(** [order_parameter] on such arrays. *)
Definition order_parameter_on (speed headings : list R) : result float64 :=
  v <- broadcast_velocities speed headings ;;
  Ok (np_divide
        (np_sqrt (np_add (np_square (mean (map fst v)))
                         (np_square (mean (map snd v)))))
        (mean speed)).

Definition with_rng (rng : G) (self : VicsekModel) : VicsekModel :=
  {| _length := _length self; _density := _density self; _speed := _speed self;
     _noise := _noise self; _radius := _radius self;
     _weights := _weights self; _positions := _positions self;
     _headings := _headings self; _current_step := _current_step self;
     _trajectory := _trajectory self; _rng := rng;
     _reset_flag := _reset_flag self |}.

(** [init_state] on a model whose parameter vectors may not fit its
    particle count, as the setters call it.  The assignments made before an
    exception stay: a negative particle count stops [rng.random] once the
    generator is seeded, and shapes that do not broadcast stop
    [order_parameter] once positions, headings and step counter are set, the
    trajectory being left as it was. *)
Definition reinit_state (reproducible : bool) (os_entropy : Z)
    (self : VicsekModel) : VicsekModel * result unit :=
  let rng :=
    if reproducible then seed_rng (Some 123456%Z) os_entropy
    else seed_rng None os_entropy in
  if (particles self <? 0)%Z
  then (with_rng rng self,
        Raise (ValueError "negative dimensions are not allowed"))
  else
    let n := Z.to_nat (particles self) in
    let (u, rng1) := random2 n rng in
    let positions :=
      map (fun p => (fst p * IZR (_length self), snd p * IZR (_length self))) u in
    let (v, rng2) := random n rng1 in
    let headings := map (fun x => x * 2 * PI) v in
    match order_parameter_on (_speed self) headings with
    | Raise e =>
        ({| _length := _length self; _density := _density self;
            _speed := _speed self; _noise := _noise self;
            _radius := _radius self; _weights := _weights self;
            _positions := positions; _headings := headings;
            _current_step := 0; _trajectory := _trajectory self;
            _rng := rng2; _reset_flag := _reset_flag self |},
         Raise e)
    | Ok op =>
        ({| _length := _length self; _density := _density self;
            _speed := _speed self; _noise := _noise self;
            _radius := _radius self; _weights := _weights self;
            _positions := positions; _headings := headings;
            _current_step := 0; _trajectory := [(0%Z, op)];
            _rng := rng2; _reset_flag := true |},
         Ok tt)
    end.

(** The setters assign the attribute and, once [_reset_flag] exists, call
    [init_state()]. *)
Definition set_length (new : Z) (os_entropy : Z) (self : VicsekModel)
  : VicsekModel * result unit :=
  let self := with_length new self in
  if _reset_flag self then reinit_state false os_entropy self
  else (self, Ok tt).

Definition set_density (new : R) (os_entropy : Z) (self : VicsekModel)
  : VicsekModel * result unit :=
  let self := with_density new self in
  if _reset_flag self then reinit_state false os_entropy self
  else (self, Ok tt).

(** ** Vocabulary of the properties *)

(** The state [step] expects: a positive box, at least one particle, and
    every array of the length the particle count gives, as [__init__] and
    [init_state] leave them. *)
Definition valid_state (self : VicsekModel) : Prop :=
  (0 < _length self)%Z /\
  (1 <= particles self)%Z /\
  length (_positions self) = Z.to_nat (particles self) /\
  length (_headings self) = Z.to_nat (particles self) /\
  length (_speed self) = Z.to_nat (particles self) /\
  length (_noise self) = Z.to_nat (particles self) /\
  length (_radius self) = Z.to_nat (particles self) /\
  length (_weights self) = Z.to_nat (particles self).

(** Particle [j] enters the sums of row [i]: the entry [(i, j)] of
    [headings_matrix] is not masked. *)
Definition contributes (self : VicsekModel) (i j : nat) : bool :=
  match nth j (nth i (headings_matrix self) []) None with
  | Some _ => true
  | None => false
  end.

(** The distance between particles [i] and [j], on the raw coordinates. *)
Definition separation (self : VicsekModel) (i j : nat) : R :=
  euclidean (nth i (_positions self) (0, 0)) (nth j (_positions self) (0, 0)).


End Model.

Arguments VicsekModel G : clear implicits.

(** ** A concrete generator and concrete states *)

(** A small linear congruential source, standing for numpy's generator where
    a closed example needs one. *)
#[export] Instance lcg : BitGenerator Z := {|
  default_rng := fun seed => (seed mod 1024)%Z;
  next_double := fun g => (IZR g / 1024, ((5 * g + 1) mod 1024)%Z)
|}.

(** Rounding to the nearest multiple of [2^-49], ties to the even multiple.
    The binary64 numbers from 8 to 16 are these multiples, so on that
    interval this is binary64's round-to-nearest-even. *)
Definition round_half_even (t : R) : Z :=
  let f := Zfloor t in
  if Rltb (t - IZR f) (1 / 2) then f
  else if Rltb (1 / 2) (t - IZR f) then (f + 1)%Z
  else if Z.even f then f else (f + 1)%Z.

#[export] Instance grid : Rounding := {|
  fl := fun x => IZR (round_half_even (x * IZR (2 ^ 49))) / IZR (2 ^ 49)
|}.

(** Two particles one unit apart in a box of side 2; the radii come from
    [radius=[2, 1]], stored reversed. *)
Definition two_particles : VicsekModel Z :=
  {| _length := 2;
     _density := 1 / 2;
     _speed := [1; 1];
     _noise := [0; 0];
     _radius := [1; 2];
     _weights := [1; 1];
     _positions := [(0, 0); (1, 0)];
     _headings := [0; 0];
     _current_step := 0;
     _trajectory := [(0%Z, Finite 1)];
     _rng := 0%Z;
     _reset_flag := true |}.

(** One particle in a box of side 10, at [x = 1] and heading for the left
    edge at the speed [1 + 2^-52], the binary64 number next above 1. *)
Definition on_the_edge : VicsekModel Z :=
  {| _length := 10;
     _density := 1 / 100;
     _speed := [1 + / IZR (2 ^ 52)];
     _noise := [0];
     _radius := [1];
     _weights := [1];
     _positions := [(1, 5)];
     _headings := [PI];
     _current_step := 0;
     _trajectory := [(0%Z, Finite 1)];
     _rng := 0%Z;
     _reset_flag := true |}.


(** ** Assignment to the properties of a model *)

Section Assignment.

Context {G : Type} `{BitGenerator G} `{Rounding}.

Definition with_speed (new : list R) (self : VicsekModel G) : VicsekModel G :=
  {| _length := _length self; _density := _density self; _speed := new;
     _noise := _noise self; _radius := _radius self;
     _weights := _weights self; _positions := _positions self;
     _headings := _headings self; _current_step := _current_step self;
     _trajectory := _trajectory self; _rng := _rng self;
     _reset_flag := _reset_flag self |}.

Definition with_noise (new : list R) (self : VicsekModel G) : VicsekModel G :=
  {| _length := _length self; _density := _density self; _speed := _speed self;
     _noise := new; _radius := _radius self;
     _weights := _weights self; _positions := _positions self;
     _headings := _headings self; _current_step := _current_step self;
     _trajectory := _trajectory self; _rng := _rng self;
     _reset_flag := _reset_flag self |}.

Definition with_radius (new : list R) (self : VicsekModel G) : VicsekModel G :=
  {| _length := _length self; _density := _density self; _speed := _speed self;
     _noise := _noise self; _radius := new;
     _weights := _weights self; _positions := _positions self;
     _headings := _headings self; _current_step := _current_step self;
     _trajectory := _trajectory self; _rng := _rng self;
     _reset_flag := _reset_flag self |}.

Definition with_weights (new : list R) (self : VicsekModel G) : VicsekModel G :=
  {| _length := _length self; _density := _density self; _speed := _speed self;
     _noise := _noise self; _radius := _radius self;
     _weights := new; _positions := _positions self;
     _headings := _headings self; _current_step := _current_step self;
     _trajectory := _trajectory self; _rng := _rng self;
     _reset_flag := _reset_flag self |}.

Definition with_trajectory (new : list (Z * float64)) (self : VicsekModel G)
  : VicsekModel G :=
  {| _length := _length self; _density := _density self; _speed := _speed self;
     _noise := _noise self; _radius := _radius self;
     _weights := _weights self; _positions := _positions self;
     _headings := _headings self; _current_step := _current_step self;
     _trajectory := new; _rng := _rng self;
     _reset_flag := _reset_flag self |}.

(** [self.speed = new] and its three siblings on a model that exists: the
    decorated setter expands [new] to the current particle count and stores
    the array; nothing else changes. *)
Definition assign_speed (new : ParticleProperty) (self : VicsekModel G)
  : result (VicsekModel G) :=
  array <- set_speed (particles self) new ;; Ok (with_speed array self).

Definition assign_noise (new : ParticleProperty) (self : VicsekModel G)
  : result (VicsekModel G) :=
  array <- set_noise (particles self) new ;; Ok (with_noise array self).

Definition assign_radius (new : ParticleProperty) (self : VicsekModel G)
  : result (VicsekModel G) :=
  array <- set_radius (particles self) new ;; Ok (with_radius array self).

Definition assign_weights (new : ParticleProperty) (self : VicsekModel G)
  : result (VicsekModel G) :=
  array <- set_weights (particles self) new ;; Ok (with_weights array self).

(** [d.get(k)] on the trajectory. *)
Fixpoint dict_get {V : Type} (k : Z) (d : list (Z * V)) : option V :=
  match d with
  | [] => None
  | (k', v) :: t => if (k =? k')%Z then Some v else dict_get k t
  end.

(** The length of a vector of the plane. *)
Definition norm (v : R * R) : R := sqrt (fst v * fst v + snd v * snd v).

(** What [Generator.random] promises of a draw: a float of [[0, 1)]. *)
Definition unit_draws : Prop :=
  forall g : G, 0 <= fst (next_double g) < 1.

(** Every particle is inside the box. *)
Definition in_box (self : VicsekModel G) : Prop :=
  Forall (fun p => 0 <= fst p < IZR (_length self) /\
                   0 <= snd p < IZR (_length self))
    (_positions self).

(** Every particle is inside the box or on its far edges. *)
Definition in_closed_box (self : VicsekModel G) : Prop :=
  Forall (fun p => 0 <= fst p <= IZR (_length self) /\
                   0 <= snd p <= IZR (_length self))
    (_positions self).

(** The weighted sum of the direction vectors of the particles that
    contribute to particle [i]. *)
Definition neighbour_sum (self : VicsekModel G) (i : nat) : R * R :=
  (nth i (sum_of_cosines self) 0, nth i (sum_of_sines self) 0).

End Assignment.

(** A second source for closed examples: the draws [1/2, 1/3, 1/4, ...]. *)
#[export] Instance harmonic : BitGenerator nat := {|
  default_rng := fun seed => Z.to_nat seed;
  next_double := fun g => (/ (INR g + 2), S g)
|}.

(** Three particles of one heading in a box of side 3, under the draws of
    [harmonic]. *)
Definition aligned_flock : VicsekModel nat :=
  {| _length := 3;
     _density := 1 / 3;
     _speed := [1; 1; 1];
     _noise := [0; 0; 0];
     _radius := [1; 1; 1];
     _weights := [1; 1; 1];
     _positions := [(0, 0); (1, 1); (2, 2)];
     _headings := [1; 1; 1];
     _current_step := 0;
     _trajectory := [(0%Z, Finite 1)];
     _rng := 0%nat;
     _reset_flag := true |}.

(** * Properties *)

(** ** Parameter vectors *)

Lemma Rltb_true (x y : R) : Rltb x y = true <-> x < y.
Proof. unfold Rltb; destruct (Rlt_dec x y); split; intros; try easy. Qed.

Lemma Rltb_false (x y : R) : Rltb x y = false <-> ~ x < y.
Proof. unfold Rltb; destruct (Rlt_dec x y); split; intros; try easy. Qed.

Lemma Reqb_true (x y : R) : Reqb x y = true <-> x = y.
Proof. unfold Reqb; destruct (Req_dec_T x y); split; intros; try easy. Qed.

Lemma Reqb_false (x y : R) : Reqb x y = false <-> x <> y.
Proof. unfold Reqb; destruct (Req_dec_T x y); split; intros; try easy. Qed.

Lemma gtb_false (a b : Z) : (a <= b)%Z -> (a >? b)%Z = false.
Proof. intros Hle. rewrite Z.gtb_ltb. apply Z.ltb_ge. lia. Qed.

Lemma gtb_true (a b : Z) : (b < a)%Z -> (a >? b)%Z = true.
Proof. intros Hlt. rewrite Z.gtb_ltb. apply Z.ltb_lt. lia. Qed.

Lemma last_cons {A : Type} (l : list A) (x d : A) : last (x :: l) d = last l x.
Proof.
  revert x d. induction l as [|y l IH]; intros x d; [reflexivity|].
  change (last (x :: y :: l) d) with (last (y :: l) d).
  now rewrite (IH y d), (IH y x).
Qed.

Lemma last_item_cons (x : R) (l : list R) :
  last_item (x :: l) = Ok (last (x :: l) 0).
Proof. simpl last_item. now rewrite last_cons. Qed.

Lemma skipn_repeat {A : Type} (a : A) (k m : nat) :
  skipn k (repeat a m) = repeat a (m - k).
Proof.
  revert m. induction k as [|k IH]; intros m.
  - now rewrite Nat.sub_0_r.
  - destruct m as [|m]; [reflexivity|]. simpl. apply IH.
Qed.

Lemma expand_to_array_fits (N : Z) (new : ParticleProperty) (x : R) (l : list R) :
  as_sequence new = x :: l ->
  (Z.of_nat (length (x :: l)) <= N)%Z ->
  expand_to_array N new =
    Ok (rev ((x :: l) ++ repeat (last (x :: l) 0) (Z.to_nat N - length (x :: l)))).
Proof.
  intros Hseq Hlen. unfold expand_to_array. rewrite Hseq.
  rewrite (gtb_false _ _ Hlen).
  rewrite last_item_cons. unfold assign_prefix. now rewrite skipn_repeat.
Qed.

Lemma expand_to_array_empty (N : Z) (new : ParticleProperty) :
  as_sequence new = [] -> (0 <= N)%Z ->
  expand_to_array N new = Raise (IndexError "list index out of range").
Proof.
  intros Hseq HN. unfold expand_to_array. rewrite Hseq. simpl.
  now rewrite (gtb_false _ _ HN).
Qed.

Lemma expand_to_array_too_many (N : Z) (new : ParticleProperty) :
  (N < Z.of_nat (length (as_sequence new)))%Z ->
  expand_to_array N new = Raise (ValueError too_many_values).
Proof.
  intros Hlen. unfold expand_to_array.
  now rewrite (gtb_true _ _ Hlen).
Qed.

Lemma existsb_negative (l : list R) :
  existsb (fun w => Rltb w 0) l = true <-> Exists (fun w => w < 0) l.
Proof.
  rewrite existsb_exists, Exists_exists.
  split; intros [w [Hin Hw]]; exists w; split; trivial; now apply Rltb_true.
Qed.

Lemma Exists_padded (P : R -> Prop) (x : R) (l : list R) (k : nat) :
  Exists P (rev ((x :: l) ++ repeat (last (x :: l) 0) k)) <-> Exists P (x :: l).
Proof.
  rewrite !Exists_exists. split; intros [w [Hin Hw]]; exists w; split; trivial.
  - apply in_rev, in_app_or in Hin. destruct Hin as [Hin|Hin]; [exact Hin|].
    apply repeat_spec in Hin. subst w.
    destruct (exists_last (l := x :: l)) as [l' [a Ha]]; [discriminate|].
    rewrite Ha, last_last. apply in_or_app. right. now left.
  - apply -> in_rev. apply in_or_app. now left.
Qed.



Lemma set_weights_fits (N : Z) (new : ParticleProperty) (x : R) (l : list R) :
  as_sequence new = x :: l ->
  (Z.of_nat (length (x :: l)) <= N)%Z ->
  set_weights N new =
    check_weights
      (rev ((x :: l) ++ repeat (last (x :: l) 0) (Z.to_nat N - length (x :: l)))).
Proof.
  intros Hseq Hlen. unfold set_weights.
  now rewrite (expand_to_array_fits N new x l Hseq Hlen).
Qed.

Lemma check_weights_rejects (a : list R) :
  is_ValueError (check_weights a) <-> Exists (fun w => w < 0) a.
Proof.
  unfold check_weights. rewrite <- existsb_negative.
  destruct (existsb _ a); split; intros Hx; try easy.
  - now eexists.
  - now destruct Hx.
Qed.

Lemma check_weights_raises (a : list R) :
  raises (check_weights a) <-> Exists (fun w => w < 0) a.
Proof.
  unfold check_weights. rewrite <- existsb_negative.
  destruct (existsb _ a); split; intros Hx; try easy.
  - now eexists.
  - now destruct Hx.
Qed.

Lemma is_ValueError_ValueError {A : Type} (msg : string) :
  is_ValueError (@Raise A (ValueError msg)) <-> True.
Proof. split; [trivial | now exists msg]. Qed.

Lemma is_ValueError_IndexError {A : Type} (msg : string) :
  is_ValueError (@Raise A (IndexError msg)) <-> False.
Proof. split; [intros [m Hm]; discriminate | tauto]. Qed.

Lemma is_ValueError_Ok {A : Type} (a : A) : is_ValueError (Ok a) <-> False.
Proof. split; [intros [m Hm]; discriminate | tauto]. Qed.

Lemma raises_Raise {A : Type} (e : exception) : raises (@Raise A e) <-> True.
Proof. split; [trivial | now exists e]. Qed.

Lemma raises_Ok {A : Type} (a : A) : raises (Ok a) <-> False.
Proof. split; [intros [e He]; discriminate | tauto]. Qed.

(** C3, as the code has it. The setters raise [ValueError] exactly on a
    sequence of more than [N] values, and the [weights] setter also exactly
    on a negative value; besides these an empty sequence is rejected, with
    the [IndexError] of [new[-1]], and nothing else is. *)
Theorem setters_reject_exactly :
  forall (N : Z) (new : ParticleProperty),
    let v := as_sequence new in
    (is_ValueError (expand_to_array N new) <-> (N < Z.of_nat (length v))%Z) /\
    (is_ValueError (set_weights N new) <->
       (N < Z.of_nat (length v))%Z \/ Exists (fun w => w < 0) v) /\
    (raises (expand_to_array N new) <->
       (N < Z.of_nat (length v))%Z \/ v = []) /\
    (raises (set_weights N new) <->
       (N < Z.of_nat (length v))%Z \/ Exists (fun w => w < 0) v \/ v = []) /\
    (expand_to_array N new = Raise (IndexError "list index out of range") <->
       v = [] /\ (0 <= N)%Z).
Proof.
  intros N new v.
  destruct (Z_lt_le_dec N (Z.of_nat (length v))) as [Hlt|Hle].
  - pose proof (expand_to_array_too_many N new Hlt) as E.
    assert (Ew : set_weights N new = Raise (ValueError too_many_values))
      by (unfold set_weights; now rewrite E).
    rewrite E, Ew, is_ValueError_ValueError, raises_Raise.
    repeat split; try tauto; try discriminate.
    intros [Hv HN]. rewrite Hv in Hlt. simpl in Hlt. lia.
  - destruct v as [|x l] eqn:Hv.
    + simpl in Hle.
      pose proof (expand_to_array_empty N new Hv Hle) as E.
      assert (Ew : set_weights N new = Raise (IndexError "list index out of range"))
        by (unfold set_weights; now rewrite E).
      rewrite E, Ew, is_ValueError_IndexError, raises_Raise.
      assert (Hex : ~ Exists (fun w => w < 0) (@nil R))
        by (intros Hex; inversion Hex).
      simpl length. repeat split; try tauto; try lia.
      intros [Hlt|Hneg]; [simpl in Hlt; lia | tauto].
    + pose proof (expand_to_array_fits N new x l Hv Hle) as E.
      pose proof (set_weights_fits N new x l Hv Hle) as Ew.
      rewrite E, Ew, is_ValueError_Ok, raises_Ok, check_weights_rejects,
        check_weights_raises, !Exists_padded.
      assert (Hne : x :: l <> []) by discriminate.
      assert (Hfit : ~ (N < Z.of_nat (length (x :: l)))%Z) by lia.
      repeat split; try tauto; try discriminate.
Qed.

(** C3, as stated, fails: nothing but an over-long sequence (and, for the
    weights, a negative value) would be rejected, yet the empty sequence is,
    on four particles as on any number of them. *)
Lemma empty_sequence_rejected :
  raises (set_speed 4 (Sequence [])) /\
  raises (set_weights 4 (Sequence [])) /\
  ~ (4 < Z.of_nat (length (as_sequence (Sequence []))))%Z /\
  ~ Exists (fun w => w < 0) (as_sequence (Sequence [])).
Proof.
  repeat split.
  - now eexists.
  - now eexists.
  - simpl. lia.
  - intros Hex. inversion Hex.
Qed.

(** ** Arrays *)

Lemma length_zip_with {A B C : Type} (f : A -> B -> C) (l : list A) (l' : list B) :
  length (zip_with f l l') = Nat.min (length l) (length l').
Proof.
  revert l'. induction l as [|a l IH]; intros [|b l']; simpl; auto.
Qed.

Lemma nth_zip_with {A B C : Type} (f : A -> B -> C) (l : list A) (l' : list B)
    (i : nat) (a : A) (b : B) (c : C) :
  (i < length l)%nat -> (i < length l')%nat ->
  nth i (zip_with f l l') c = f (nth i l a) (nth i l' b).
Proof.
  revert l' i. induction l as [|x l IH]; intros [|y l'] i Hl Hl'; simpl in *; try lia.
  destruct i as [|i]; [reflexivity|]. apply IH; lia.
Qed.

Lemma Forall_zip_with {A B C : Type} (f : A -> B -> C) (P : C -> Prop)
    (l : list A) (l' : list B) :
  (forall a b, P (f a b)) -> Forall P (zip_with f l l').
Proof.
  intros HP. revert l'. induction l as [|a l IH]; intros [|b l']; simpl; auto.
Qed.

Lemma nth_map_seq {A : Type} (f : nat -> A) (n i : nat) (d : A) :
  (i < n)%nat -> nth i (map f (seq 0 n)) d = f i.
Proof.
  intros Hi. rewrite (nth_indep _ d (f 0%nat)) by now rewrite length_map, length_seq.
  rewrite map_nth. now rewrite seq_nth.
Qed.

Lemma nth_repeat_lt {A : Type} (a d : A) (n i : nat) :
  (i < n)%nat -> nth i (repeat a n) d = a.
Proof.
  revert i. induction n as [|n IH]; intros i Hi; [lia|].
  destruct i as [|i]; [reflexivity|]. simpl. apply IH. lia.
Qed.

(** ** Numbers *)

Lemma int_of_float_near (q : R) : -1 < q - IZR (int_of_float q) < 1.
Proof.
  unfold int_of_float. destruct (Rltb q 0).
  - unfold Zceil. rewrite opp_IZR.
    pose proof (Zfloor_bound (- q)). lra.
  - pose proof (Zfloor_bound q). lra.
Qed.

Lemma fmod_range (x L : R) : 0 < L -> - L < fmod x L < L.
Proof.
  intros HL. unfold fmod.
  pose proof (int_of_float_near (x / L)) as Hq.
  replace (x - L * IZR (int_of_float (x / L)))
    with (L * (x / L - IZR (int_of_float (x / L)))) by (field; lra).
  split; nra.
Qed.

(** The wrapped coordinate lies in the closed interval: the rounded sum of
    [np.mod] can be the divisor itself. *)
Lemma np_mod_closed_range `{Rounding} (x : R) (z : Z) :
  faithful_rounding ->
  (0 < z <= 2 ^ 53)%Z ->
  0 <= np_mod x (IZR z) <= IZR z.
Proof.
  intros [Hmono Hint] Hz.
  assert (HL : 0 < IZR z) by (apply IZR_lt; lia).
  pose proof (fmod_range x (IZR z) HL) as Hm.
  unfold np_mod. destruct (Reqb (fmod x (IZR z)) 0) eqn:E0; [lra|].
  apply Reqb_false in E0.
  assert (Ey : Rltb (IZR z) 0 = false) by (apply Rltb_false; lra).
  rewrite Ey. simpl xorb.
  destruct (Rltb (fmod x (IZR z)) 0) eqn:Em.
  - apply Rltb_true in Em.
    assert (H0 : fl 0 = 0) by (apply (Hint 0%Z); lia).
    assert (HLz : fl (IZR z) = IZR z) by (apply Hint; lia).
    split.
    + rewrite <- H0. apply Hmono. lra.
    + apply Rle_trans with (fl (IZR z)); [apply Hmono; lra | rewrite HLz; lra].
  - apply Rltb_false in Em. lra.
Qed.

Lemma euclidean_sym (p q : R * R) : euclidean p q = euclidean q p.
Proof. unfold euclidean. f_equal. ring. Qed.

Lemma euclidean_refl (p : R * R) : euclidean p p = 0.
Proof.
  unfold euclidean.
  replace ((fst p - fst p) * (fst p - fst p) + (snd p - snd p) * (snd p - snd p))
    with 0 by ring.
  apply sqrt_0.
Qed.

Lemma int_of_float_IZR (z : Z) : int_of_float (IZR z) = z.
Proof.
  unfold int_of_float. destruct (Rltb (IZR z) 0).
  - unfold Zceil. rewrite <- opp_IZR.
    rewrite (Zfloor_eq (- z) (IZR (- z))); [lia | lra].
  - apply Zfloor_eq. lra.
Qed.

Section StepProperties.

Context {G : Type} `{BitGenerator G} `{Rounding}.

Lemma random_length (n : nat) (g : G) : length (fst (random n g)) = n.
Proof.
  revert g. induction n as [|n IH]; intros g; [reflexivity|].
  simpl. destruct (next_double g) as [u g1].
  specialize (IH g1). destruct (random n g1) as [us g2]. simpl in *. now rewrite IH.
Qed.

Lemma random2_length (n : nat) (g : G) : length (fst (random2 n g)) = n.
Proof.
  revert g. induction n as [|n IH]; intros g; [reflexivity|].
  simpl. destruct (next_double g) as [u g1]. destruct (next_double g1) as [v g2].
  specialize (IH g2). destruct (random2 n g2) as [ps g3]. simpl in *. now rewrite IH.
Qed.

Lemma distance_matrix_length (X : list (R * R)) :
  length (distance_matrix X) = length X.
Proof. unfold distance_matrix. now rewrite length_map, length_seq. Qed.

Lemma distance_matrix_row (X : list (R * R)) (i : nat) :
  (i < length X)%nat ->
  nth i (distance_matrix X) [] =
    map (fun j =>
      if (i =? j)%nat then 0
      else euclidean (nth (Nat.min i j) X (0, 0)) (nth (Nat.max i j) X (0, 0)))
      (seq 0 (length X)).
Proof. intros Hi. unfold distance_matrix. now rewrite nth_map_seq. Qed.

Lemma distance_matrix_entry (X : list (R * R)) (i j : nat) :
  (i < length X)%nat -> (j < length X)%nat ->
  nth j (nth i (distance_matrix X) []) 0 =
    euclidean (nth i X (0, 0)) (nth j X (0, 0)).
Proof.
  intros Hi Hj. rewrite distance_matrix_row, nth_map_seq by assumption.
  destruct (Nat.eqb_spec i j) as [->|Hne]; [now rewrite euclidean_refl|].
  destruct (Nat.le_gt_cases i j) as [Hle|Hgt].
  - now rewrite Nat.min_l, Nat.max_r by lia.
  - rewrite Nat.min_r, Nat.max_l by lia. apply euclidean_sym.
Qed.

Lemma adjacency_matrix_length (self : VicsekModel G) :
  length (adjacency_matrix self) = length (_positions self).
Proof. unfold adjacency_matrix. now rewrite length_map, distance_matrix_length. Qed.

Lemma adjacency_matrix_row (self : VicsekModel G) (i : nat) :
  (i < length (_positions self))%nat ->
  nth i (adjacency_matrix self) [] =
    zip_with Rltb (nth i (distance_matrix (_positions self)) []) (_radius self).
Proof.
  intros Hi. unfold adjacency_matrix.
  rewrite (nth_indep _ [] (zip_with Rltb [] (_radius self)))
    by now rewrite length_map, distance_matrix_length.
  now rewrite (map_nth (fun row => zip_with Rltb row (_radius self))).
Qed.

Lemma headings_matrix_length (self : VicsekModel G) :
  valid_state self ->
  length (headings_matrix self) = Z.to_nat (particles self).
Proof.
  intros (_ & _ & HX & _). unfold headings_matrix, ma_array, broadcast_to.
  rewrite length_zip_with, repeat_length, length_map, adjacency_matrix_length, HX.
  apply Nat.min_id.
Qed.

Lemma headings_matrix_row (self : VicsekModel G) (i : nat) :
  valid_state self ->
  (i < Z.to_nat (particles self))%nat ->
  nth i (headings_matrix self) [] =
    zip_with (fun d (m : bool) => if m then None else Some d)
      (_headings self) (map negb (nth i (adjacency_matrix self) [])).
Proof.
  intros (_ & _ & HX & _) Hi. unfold headings_matrix, ma_array, broadcast_to.
  rewrite (nth_zip_with _ _ _ i [] [] []).
  - rewrite nth_repeat_lt by assumption.
    rewrite (nth_indep _ [] (map negb []))
      by now rewrite length_map, adjacency_matrix_length, HX.
    now rewrite (map_nth (map negb)).
  - now rewrite repeat_length.
  - now rewrite length_map, adjacency_matrix_length, HX.
Qed.

Lemma sum_of_sines_length (self : VicsekModel G) :
  valid_state self -> length (sum_of_sines self) = Z.to_nat (particles self).
Proof.
  intros Hv. unfold sum_of_sines, weighted.
  now rewrite !length_map, headings_matrix_length.
Qed.

Lemma sum_of_cosines_length (self : VicsekModel G) :
  valid_state self -> length (sum_of_cosines self) = Z.to_nat (particles self).
Proof.
  intros Hv. unfold sum_of_cosines, weighted.
  now rewrite !length_map, headings_matrix_length.
Qed.

Lemma velocity_array_length (speed headings : list R) :
  length (velocity_array speed headings) = Nat.min (length speed) (length headings).
Proof. unfold velocity_array. now rewrite length_zip_with, length_map. Qed.

(** The arrays keep their length through a step. *)
Lemma step_lengths (self : VicsekModel G) :
  valid_state self ->
  length (_headings (step self)) = Z.to_nat (particles self) /\
  length (_positions (step self)) = Z.to_nat (particles self).
Proof.
  intros Hv. pose proof Hv as (_ & _ & HX & _ & Hs & Hn & _).
  unfold step.
  pose proof (random_length (Z.to_nat (particles self)) (_rng self)) as Hu.
  destruct (random (Z.to_nat (particles self)) (_rng self)) as [u rng].
  simpl in Hu. simpl _headings. simpl _positions.
  assert (Hh : length
    (zip_with Rplus
       (zip_with np_arctan2 (sum_of_sines self) (sum_of_cosines self))
       (zip_with Rmult (map (fun x => x - 0.5) u) (_noise self)))
    = Z.to_nat (particles self)).
  { rewrite !length_zip_with, length_map, sum_of_sines_length,
      sum_of_cosines_length, Hu, Hn by assumption. lia. }
  split; [exact Hh|].
  rewrite length_map, length_zip_with, velocity_array_length, Hh, HX, Hs. lia.
Qed.

Lemma step_positions_range (self : VicsekModel G) :
  faithful_rounding ->
  (0 < _length self <= 2 ^ 53)%Z ->
  Forall (fun p => 0 <= fst p <= IZR (_length self) /\
                   0 <= snd p <= IZR (_length self))
    (_positions (step self)).
Proof.
  intros Hfl HL. unfold step.
  destruct (random (Z.to_nat (particles self)) (_rng self)) as [u rng].
  simpl _positions. apply Forall_map, Forall_forall. intros p _.
  unfold wrap; simpl; split; now apply np_mod_closed_range.
Qed.

(** C6, as the code has it. After a step of a valid state (at least one
    particle, a positive box of a side binary64 holds), every one of the [N]
    positions has both coordinates in the closed interval [[0, length]]: the
    far end is not excluded, since the sum that ends [np.mod] is rounded and
    can be [length] itself. [current_step] is one more than before. *)
Theorem step_keeps_positions_in_box :
  forall self : VicsekModel G,
    faithful_rounding ->
    valid_state self ->
    (_length self <= 2 ^ 53)%Z ->
    length (_positions (step self)) = Z.to_nat (particles self) /\
    Forall (fun p => 0 <= fst p <= IZR (_length self) /\
                     0 <= snd p <= IZR (_length self))
      (_positions (step self)) /\
    _current_step (step self) = (_current_step self + 1)%Z.
Proof.
  intros self Hfl Hv HL. split; [apply (step_lengths self Hv)|].
  split; [apply step_positions_range; [exact Hfl | destruct Hv; lia]|].
  unfold step. now destruct (random (Z.to_nat (particles self)) (_rng self)).
Qed.

Lemma step_frame_fields (self : VicsekModel G) :
  _speed (step self) = _speed self /\
  _radius (step self) = _radius self /\
  _noise (step self) = _noise self /\
  _weights (step self) = _weights self /\
  _length (step self) = _length self /\
  _density (step self) = _density self /\
  _trajectory (step self) = _trajectory self.
Proof.
  unfold step.
  destruct (random (Z.to_nat (particles self)) (_rng self)) as [u rng].
  repeat split.
Qed.

(** C10. A step leaves the four parameter vectors, the box length, the
    density and the trajectory as they were. *)
Theorem step_frame :
  forall self : VicsekModel G,
    _speed (step self) = _speed self /\
    _radius (step self) = _radius self /\
    _noise (step self) = _noise self /\
    _weights (step self) = _weights self /\
    _length (step self) = _length self /\
    _density (step self) = _density self /\
    _trajectory (step self) = _trajectory self.
Proof. exact step_frame_fields. Qed.

End StepProperties.

(** ** The neighbours of a step *)

Lemma particles_two_particles : particles two_particles = 2%Z.
Proof.
  unfold particles, count_particles. simpl _density. simpl _length.
  replace (1 / 2 * IZR (2 ^ 2)) with (IZR 2) by (simpl; lra).
  apply int_of_float_IZR.
Qed.

Lemma two_particles_valid : valid_state two_particles.
Proof.
  unfold valid_state. rewrite particles_two_particles. simpl.
  repeat split; try reflexivity; lia.
Qed.

Lemma round_half_even_monotone (t t' : R) :
  t <= t' -> (round_half_even t <= round_half_even t')%Z.
Proof.
  intros Hle. unfold round_half_even.
  pose proof (Zfloor_le t t' Hle) as Hf.
  pose proof (Zfloor_bound t) as Hb. pose proof (Zfloor_bound t') as Hb'.
  destruct (Z.eq_dec (Zfloor t) (Zfloor t')) as [E|E].
  - rewrite <- E in *.
    destruct (Rltb (t - IZR (Zfloor t)) (1 / 2)) eqn:E1.
    + destruct (Rltb (t' - IZR (Zfloor t)) (1 / 2));
        [lia | destruct (Rltb (1 / 2) (t' - IZR (Zfloor t))); [lia|]].
      destruct (Z.even (Zfloor t)); lia.
    + apply Rltb_false in E1.
      assert (E1' : Rltb (t' - IZR (Zfloor t)) (1 / 2) = false)
        by (apply Rltb_false; lra).
      rewrite E1'.
      destruct (Rltb (1 / 2) (t - IZR (Zfloor t))) eqn:E2.
      * apply Rltb_true in E2.
        assert (E2' : Rltb (1 / 2) (t' - IZR (Zfloor t)) = true)
          by (apply Rltb_true; lra).
        rewrite E2'. lia.
      * destruct (Rltb (1 / 2) (t' - IZR (Zfloor t)));
          destruct (Z.even (Zfloor t)); lia.
  - assert (Hlt : (Zfloor t + 1 <= Zfloor t')%Z) by lia.
    assert (Hup : forall a b d : Z, (a <= d)%Z -> (b <= d)%Z ->
              ((if Rltb (t - IZR (Zfloor t)) (1 / 2) then a
                else if Rltb (1 / 2) (t - IZR (Zfloor t)) then b
                else if Z.even (Zfloor t) then a else b) <= d)%Z)
      by (intros; destruct (Rltb _ _); [|destruct (Rltb _ _); [|destruct (Z.even _)]];
          assumption).
    apply Z.le_trans with (Zfloor t').
    + apply Hup; lia.
    + destruct (Rltb (t' - IZR (Zfloor t')) (1 / 2));
        [|destruct (Rltb (1 / 2) (t' - IZR (Zfloor t')));
          [|destruct (Z.even (Zfloor t'))]]; lia.
Qed.

Lemma round_half_even_IZR (z : Z) : round_half_even (IZR z) = z.
Proof.
  unfold round_half_even. rewrite ZfloorZ.
  assert (E : Rltb (IZR z - IZR z) (1 / 2) = true) by (apply Rltb_true; lra).
  now rewrite E.
Qed.

Lemma grid_size_positive : 0 < IZR (2 ^ 49).
Proof. apply IZR_lt. reflexivity. Qed.

(** [grid] keeps the order and the integers. *)
Lemma grid_faithful : faithful_rounding (H := grid).
Proof.
  pose proof grid_size_positive as Hg. split.
  - intros x y Hxy. simpl.
    apply Rmult_le_compat_r; [left; now apply Rinv_0_lt_compat|].
    apply IZR_le, round_half_even_monotone. nra.
  - intros z _. simpl. rewrite <- mult_IZR, round_half_even_IZR, mult_IZR.
    field. lra.
Qed.

Lemma step_keeps_positions_in_box_witness :
  faithful_rounding (H := grid) /\
  valid_state two_particles /\
  (_length two_particles <= 2 ^ 53)%Z /\
  length (_positions (step two_particles)) = Z.to_nat (particles two_particles) /\
  Forall (fun p => 0 <= fst p <= IZR (_length two_particles) /\
                   0 <= snd p <= IZR (_length two_particles))
    (_positions (step two_particles)) /\
  _current_step (step two_particles) = (_current_step two_particles + 1)%Z.
Proof.
  assert (HL : (_length two_particles <= 2 ^ 53)%Z) by (simpl; lia).
  split; [exact grid_faithful|]. split; [exact two_particles_valid|].
  split; [exact HL|].
  apply (step_keeps_positions_in_box two_particles grid_faithful
           two_particles_valid HL).
Defined.

Lemma ma_sum_map (row : list (option R)) :
  ma_sum row =
    Rsum (map (fun x => match x with Some v => v | None => 0 end) row).
Proof.
  induction row as [|[v|] row IH]; simpl; [reflexivity | now rewrite IH |].
  rewrite IH. ring.
Qed.

Lemma map_nth_seq {A : Type} (l : list A) (d : A) :
  l = map (fun j => nth j l d) (seq 0 (length l)).
Proof.
  apply (nth_ext _ _ d d).
  - now rewrite length_map, length_seq.
  - intros i Hi. now rewrite nth_map_seq.
Qed.

Section Neighbours.

Context {G : Type} `{BitGenerator G} `{Rounding}.

Variable self : VicsekModel G.
Hypothesis Hvalid : valid_state self.

Local Abbreviation N := (Z.to_nat (particles self)).

Lemma adjacency_entry (i j : nat) :
  (i < N)%nat -> (j < N)%nat ->
  nth j (nth i (adjacency_matrix self) []) false =
    Rltb (separation self i j) (nth j (_radius self) 0).
Proof.
  intros Hi Hj. pose proof Hvalid as (_ & _ & HX & _ & _ & _ & Hr & _).
  rewrite adjacency_matrix_row by lia.
  rewrite (nth_zip_with _ _ _ j 0 0 false).
  - rewrite distance_matrix_entry by lia. reflexivity.
  - rewrite distance_matrix_row, length_map, length_seq by lia. lia.
  - lia.
Qed.

Lemma adjacency_row_length (i : nat) :
  (i < N)%nat -> length (nth i (adjacency_matrix self) []) = N.
Proof.
  intros Hi. pose proof Hvalid as (_ & _ & HX & _ & _ & _ & Hr & _).
  rewrite adjacency_matrix_row, length_zip_with by lia.
  rewrite distance_matrix_row, length_map, length_seq by lia. lia.
Qed.

Lemma headings_matrix_entry (i j : nat) :
  (i < N)%nat -> (j < N)%nat ->
  nth j (nth i (headings_matrix self) []) None =
    if Rltb (separation self i j) (nth j (_radius self) 0)
    then Some (nth j (_headings self) 0) else None.
Proof.
  intros Hi Hj. pose proof Hvalid as (_ & _ & _ & Hh & _).
  rewrite headings_matrix_row by assumption.
  rewrite (nth_zip_with _ _ _ j 0 false None).
  - rewrite (nth_indep _ false (negb false))
      by now rewrite length_map, adjacency_row_length.
    rewrite map_nth, adjacency_entry by assumption.
    now destruct (Rltb _ _).
  - lia.
  - now rewrite length_map, adjacency_row_length.
Qed.

Lemma headings_matrix_row_length (i : nat) :
  (i < N)%nat -> length (nth i (headings_matrix self) []) = N.
Proof.
  intros Hi. pose proof Hvalid as (_ & _ & _ & Hh & _).
  rewrite headings_matrix_row, length_zip_with, length_map,
    adjacency_row_length by assumption. lia.
Qed.

Lemma contributes_iff (i j : nat) :
  (i < N)%nat -> (j < N)%nat ->
  contributes self i j = true <->
  separation self i j < nth j (_radius self) 0.
Proof.
  intros Hi Hj. unfold contributes. rewrite headings_matrix_entry by assumption.
  rewrite <- Rltb_true. now destruct (Rltb _ _).
Qed.

(** Row [i] of the weighted masked matrix sums the terms of the particles
    that contribute to [i]. *)
Lemma weighted_row_sum (f : R -> R) (i : nat) :
  (i < N)%nat ->
  nth i (map ma_sum (weighted (_weights self) f (headings_matrix self))) 0 =
    Rsum (map (fun j =>
      if contributes self i j
      then nth j (_weights self) 0 * f (nth j (_headings self) 0)
      else 0) (seq 0 N)).
Proof.
  intros Hi. pose proof Hvalid as (_ & _ & _ & _ & _ & _ & _ & Hw).
  unfold weighted. rewrite map_map.
  rewrite (nth_indep _ 0
    ((fun row => ma_sum
       (zip_with (fun w x => option_map (fun h => w * f h) x) (_weights self) row))
       []))
    by now rewrite length_map, headings_matrix_length.
  rewrite (map_nth (fun row => ma_sum
    (zip_with (fun w x => option_map (fun h => w * f h) x) (_weights self) row))).
  rewrite ma_sum_map.
  set (row := zip_with _ (_weights self) (nth i (headings_matrix self) [])).
  assert (Hrow : length row = N).
  { unfold row. rewrite length_zip_with, headings_matrix_row_length by assumption. lia. }
  rewrite (map_nth_seq row None) at 1. rewrite Hrow, map_map.
  f_equal. apply map_ext_in. intros j Hj. apply in_seq in Hj.
  unfold row. rewrite (nth_zip_with _ _ _ j 0 None None)
    by (rewrite ?headings_matrix_row_length by assumption; lia).
  unfold contributes.
  rewrite headings_matrix_entry by (assumption || lia).
  now destruct (Rltb _ _).
Qed.

End Neighbours.

(** C1, as the code has it. In a step over a valid state, particle [j]
    enters the weighted sums of sines and cosines of particle [i] exactly
    when their Euclidean distance on the raw coordinates is below
    [radius[j]], the radius of the contributing particle [j]; particle [i]
    contributes to itself exactly when [radius[i] > 0]. *)
Theorem neighbour_radius_is_the_columns :
  forall (G : Type) (rng : BitGenerator G) (self : VicsekModel G) (i j : nat),
    valid_state self ->
    (i < Z.to_nat (particles self))%nat ->
    (j < Z.to_nat (particles self))%nat ->
    (contributes self i j = true <->
       separation self i j < nth j (_radius self) 0) /\
    (contributes self i i = true <-> 0 < nth i (_radius self) 0) /\
    nth i (sum_of_sines self) 0 =
      Rsum (map (fun k =>
        if contributes self i k
        then nth k (_weights self) 0 * sin (nth k (_headings self) 0)
        else 0) (seq 0 (Z.to_nat (particles self)))) /\
    nth i (sum_of_cosines self) 0 =
      Rsum (map (fun k =>
        if contributes self i k
        then nth k (_weights self) 0 * cos (nth k (_headings self) 0)
        else 0) (seq 0 (Z.to_nat (particles self)))).
Proof.
  intros G rng self i j Hv Hi Hj. repeat split.
  - now apply contributes_iff.
  - now apply contributes_iff.
  - intros Hc. apply contributes_iff in Hc; trivial.
    unfold separation in Hc. now rewrite euclidean_refl in Hc.
  - intros Hr. apply contributes_iff; trivial.
    unfold separation. now rewrite euclidean_refl.
  - now apply weighted_row_sum.
  - now apply weighted_row_sum.
Qed.

Lemma separation_two_particles : separation two_particles 0 1 = 1.
Proof.
  unfold separation, euclidean. simpl.
  replace ((0 - 1) * (0 - 1) + (0 - 0) * (0 - 0)) with 1 by ring.
  apply sqrt_1.
Qed.

Lemma neighbour_radius_is_the_columns_witness :
  valid_state two_particles /\
  (contributes two_particles 0 1 = true <->
     separation two_particles 0 1 < nth 1 (_radius two_particles) 0).
Proof.
  split; [exact two_particles_valid|].
  apply (neighbour_radius_is_the_columns Z lcg two_particles 0 1
           two_particles_valid);
    rewrite particles_two_particles; simpl; lia.
Defined.

(** C1, as stated, fails. With radii [[1; 2]] and the two particles one unit
    apart, particle 1 contributes to particle 0 although their distance is
    not below [radius[0]]; and particle 0 does not contribute to particle 1. *)
Lemma row_radius_refuted :
  contributes two_particles 0 1 = true /\
  ~ separation two_particles 0 1 < nth 0 (_radius two_particles) 0 /\
  contributes two_particles 1 0 = false.
Proof.
  assert (H2 : (0 < Z.to_nat (particles two_particles))%nat /\
               (1 < Z.to_nat (particles two_particles))%nat)
    by (rewrite particles_two_particles; simpl; lia).
  destruct H2 as [H0 H1].
  pose proof separation_two_particles as Hd.
  split; [|split].
  - apply (contributes_iff two_particles two_particles_valid 0 1 H0 H1).
    rewrite Hd. simpl. lra.
  - rewrite Hd. simpl. lra.
  - apply not_true_is_false. intros Hc.
    apply (contributes_iff two_particles two_particles_valid 1 0 H1 H0) in Hc.
    unfold separation in Hc. rewrite euclidean_sym in Hc.
    fold (separation two_particles 0 1) in Hc. rewrite Hd in Hc. simpl in Hc. lra.
Qed.

(** ** Initialisation *)

Section InitProperties.

Context {G : Type} `{BitGenerator G} `{Rounding}.

Lemma fresh_state_fields (reproducible : bool) (os_entropy : Z)
    (length : Z) (density : R) (speed noise radius weights : list R) :
  let rng := if reproducible then default_rng 123456%Z else default_rng os_entropy in
  let n := Z.to_nat (count_particles length density) in
  let headings :=
    map (fun x => x * 2 * PI) (fst (random n (snd (random2 n rng)))) in
  fresh_state reproducible os_entropy length density speed noise radius weights =
    {| _length := length;
       _density := density;
       _speed := speed;
       _noise := noise;
       _radius := radius;
       _weights := weights;
       _positions :=
         map (fun p => (fst p * IZR length, snd p * IZR length))
           (fst (random2 n rng));
       _headings := headings;
       _current_step := 0;
       _trajectory := [(0%Z, order_parameter_of speed headings)];
       _rng := snd (random n (snd (random2 n rng)));
       _reset_flag := true |}.
Proof.
  intros rng n headings. unfold fresh_state, seed_rng.
  replace (if reproducible then default_rng 123456%Z else default_rng os_entropy)
    with rng by reflexivity.
  fold n. subst headings.
  destruct (random2 n rng) as [u rng1]. simpl fst. simpl snd.
  destruct (random n rng1) as [v rng2]. reflexivity.
Qed.


Lemma init_state_configuration (reproducible : bool) (os_entropy : Z)
    (self : VicsekModel G) :
  _length (init_state reproducible os_entropy self) = _length self /\
  _density (init_state reproducible os_entropy self) = _density self.
Proof. unfold init_state. rewrite fresh_state_fields. split; reflexivity. Qed.

(** C8. [init_state(reproducible=True)] seeds the generator with 123456, so
    the positions and headings it draws depend on the box length and the
    density alone: two runs on one configuration, whatever the generator
    held before and whatever entropy the system would have supplied, give
    the same arrays. *)
Theorem reproducible_init_state_is_deterministic :
  forall (self1 self2 : VicsekModel G) (entropy1 entropy2 : Z),
    _length self1 = _length self2 ->
    _density self1 = _density self2 ->
    let n := Z.to_nat (particles self1) in
    let seeded := random2 n (default_rng 123456%Z) in
    _positions (init_state true entropy1 self1) =
      _positions (init_state true entropy2 self2) /\
    _headings (init_state true entropy1 self1) =
      _headings (init_state true entropy2 self2) /\
    _positions (init_state true entropy1 self1) =
      map (fun p => (fst p * IZR (_length self1), snd p * IZR (_length self1)))
        (fst seeded) /\
    _headings (init_state true entropy1 self1) =
      map (fun x => x * 2 * PI) (fst (random n (snd seeded))).
Proof.
  intros self1 self2 entropy1 entropy2 Hlen Hden n seeded.
  unfold init_state. rewrite !fresh_state_fields. simpl.
  rewrite <- Hlen, <- Hden. repeat split.
Qed.

End InitProperties.

Lemma reproducible_init_state_is_deterministic_witness :
  _length two_particles = _length (init_state true 7 two_particles) /\
  _density two_particles = _density (init_state true 7 two_particles) /\
  _positions (init_state true 1 two_particles) =
    _positions (init_state true 2 (init_state true 7 two_particles)) /\
  _headings (init_state true 1 two_particles) =
    _headings (init_state true 2 (init_state true 7 two_particles)).
Proof.
  destruct (init_state_configuration true 7 two_particles) as [Hlen Hden].
  split; [now rewrite Hlen|]. split; [now rewrite Hden|].
  destruct (reproducible_init_state_is_deterministic
              two_particles (init_state true 7 two_particles) 1 2
              (eq_sym Hlen) (eq_sym Hden)) as (Hp & Hh & _).
  split; assumption.
Defined.

(** ** Valid states *)

Lemma expand_to_array_length (N : Z) (new : ParticleProperty) (array : list R) :
  expand_to_array N new = Ok array ->
  (1 <= N)%Z /\ length array = Z.to_nat N.
Proof.
  intros E. destruct (Z_lt_le_dec N (Z.of_nat (length (as_sequence new)))) as [Hlt|Hle].
  - rewrite (expand_to_array_too_many N new Hlt) in E. discriminate.
  - destruct (as_sequence new) as [|x l] eqn:Hseq.
    + simpl in Hle. rewrite (expand_to_array_empty N new Hseq Hle) in E. discriminate.
    + rewrite (expand_to_array_fits N new x l Hseq Hle) in E.
      replace array
        with (rev ((x :: l) ++
                   repeat (last (x :: l) 0) (Z.to_nat N - length (x :: l))))
        by congruence.
      rewrite length_rev, length_app, repeat_length.
      simpl length in *. lia.
Qed.

Lemma set_weights_length (N : Z) (new : ParticleProperty) (array : list R) :
  set_weights N new = Ok array -> length array = Z.to_nat N.
Proof.
  unfold set_weights. destruct (expand_to_array N new) as [a|e] eqn:E; [|discriminate].
  simpl. unfold check_weights. destruct (existsb _ a); [discriminate|].
  intros [= <-]. now apply expand_to_array_length in E.
Qed.

Section ValidStates.

Context {G : Type} `{BitGenerator G} `{Rounding}.

(** Every model [__init__] returns in a positive box is a valid state. *)
Lemma new_model_valid (length : Z) (density : R)
    (speed noise radius weights : ParticleProperty) (os_entropy : Z)
    (self : VicsekModel G) :
  (0 < length)%Z ->
  new_model length density speed noise radius weights os_entropy = Ok self ->
  valid_state self.
Proof.
  intros HL. unfold new_model, set_speed, set_noise, set_radius.
  destruct (expand_to_array _ speed) as [speed'|] eqn:Es; [|discriminate].
  destruct (expand_to_array _ noise) as [noise'|] eqn:En; [|discriminate].
  destruct (expand_to_array _ radius) as [radius'|] eqn:Er; [|discriminate].
  destruct (set_weights _ weights) as [weights'|] eqn:Ew; [|discriminate].
  simpl. intros [= <-]. rewrite fresh_state_fields.
  apply expand_to_array_length in Es, En, Er. apply set_weights_length in Ew.
  unfold valid_state, particles. simpl.
  rewrite !length_map, random2_length, random_length.
  repeat split; tauto.
Qed.

(** A step of a valid state is a valid state. *)
Lemma step_valid (self : VicsekModel G) :
  valid_state self -> valid_state (step self).
Proof.
  intros Hv. destruct (step_lengths self Hv) as [Hh Hp].
  destruct (step_frame_fields self) as (Es & Er & En & Ew & El & Ed & _).
  pose proof Hv as (HL & HN & _ & _ & Hs & Hn & Hr & Hw).
  assert (EN : particles (step self) = particles self)
    by (unfold particles; now rewrite El, Ed).
  unfold valid_state. rewrite EN, Es, Er, En, Ew, El. tauto.
Qed.

End ValidStates.

(** ** The order parameter *)




Lemma mean_empty : mean [] = NaN.
Proof.
  unfold mean, np_mean, np_sum. simpl.
  assert (E : Reqb 0 0 = true) by now apply Reqb_true.
  now rewrite E.
Qed.









Section OrderParameter.

Context {G : Type} `{BitGenerator G} `{Rounding}.


End OrderParameter.



(** ** Evolution *)

Lemma np_var_singleton (a : float64) : np_var 1 [a] = NaN.
Proof.
  assert (E0 : Reqb 0 0 = true) by now apply Reqb_true.
  assert (E1 : Reqb 1 0 = false) by (apply Reqb_false; lra).
  assert (L1 : Rltb 1 0 = false) by (apply Rltb_false; lra).
  unfold np_var, np_mean, np_sum. simpl.
  change (Z.max 0 0) with 0%Z.
  destruct a as [x| |s]; simpl; rewrite ?E1, ?L1, ?E0; simpl.
  - replace (0 + (x + - ((0 + x) / 1)) * (x + - ((0 + x) / 1))) with 0 by field.
    now rewrite E0.
  - reflexivity.
  - rewrite xorb_false_r. now destruct s.
Qed.

Lemma np_mean_singleton (a : float64) : np_mean [a] = a.
Proof.
  assert (E1 : Reqb 1 0 = false) by (apply Reqb_false; lra).
  assert (L1 : Rltb 1 0 = false) by (apply Rltb_false; lra).
  unfold np_mean, np_sum. simpl.
  destruct a as [x| |s]; simpl; rewrite ?E1, ?L1.
  - f_equal. field.
  - reflexivity.
  - now rewrite xorb_false_r.
Qed.

Section Evolution.

Context {G : Type} `{BitGenerator G} `{Rounding}.

Lemma updates_count (k : nat) (pbar : tqdm) :
  n (Nat.iter k update pbar) = (n pbar + Z.of_nat k)%Z.
Proof.
  induction k as [|k IH]; [simpl; lia|].
  rewrite Nat2Z.inj_succ. simpl. rewrite IH. lia.
Qed.

(** The tracking loop notifies the bar after each tick. *)
Lemma evolve_tracking_notifies (interval : Z) (k : nat) (pbar : tqdm)
    (self : VicsekModel G) :
  interval <> 0%Z ->
  snd (evolve_tracking k interval (Some pbar) self) = Ok tt /\
  snd (fst (evolve_tracking k interval (Some pbar) self)) =
    Some (Nat.iter k update pbar).
Proof.
  intros Hi. apply Z.eqb_neq in Hi.
  revert pbar self. induction k as [|k IH]; intros pbar self; [split; reflexivity|].
  simpl evolve_tracking. rewrite Hi. simpl notify.
  rewrite Nat.iter_succ_r. apply IH.
Qed.

Lemma evolve_tracking_all_steps (interval : Z) (k : nat) (pbar : option tqdm)
    (self : VicsekModel G) :
  interval <> 0%Z ->
  _current_step (fst (fst (evolve_tracking k interval pbar self))) =
    (_current_step self + Z.of_nat k)%Z.
Proof.
  intros Hi. apply Z.eqb_neq in Hi.
  revert pbar self. induction k as [|k IH]; intros pbar self; [simpl; lia|].
  simpl evolve_tracking. rewrite Hi, IH.
  assert (Hs : _current_step (step self) = (_current_step self + 1)%Z)
    by (unfold step; now destruct (random _ _)).
  destruct (_current_step (step self) mod interval =? 0)%Z;
    [change (_current_step (record_order_parameter (step self)))
       with (_current_step (step self))|];
    rewrite Hs; lia.
Qed.

Lemma step_times_all_steps (k : nat) (self : VicsekModel G) :
  _current_step (step_times k self) = (_current_step self + Z.of_nat k)%Z.
Proof.
  revert self. induction k as [|k IH]; intros self; [simpl; lia|].
  simpl step_times. rewrite IH.
  assert (Hs : _current_step (step self) = (_current_step self + 1)%Z)
    by (unfold step; now destruct (random _ _)).
  lia.
Qed.

(** C5, what the code does. Without tracking, [evolve] takes all its steps
    and then notifies the progress bar once: whatever [steps] is, the
    counter of the bar grows by 1, not by [steps]. With tracking (and a
    non-zero interval) it grows by one per tick, as
    [evolve_tracking_notifies] shows. *)
Theorem evolve_untracked_notifies_once :
  forall (steps interval : Z) (pbar : tqdm) (self : VicsekModel G),
    let '(self', pbar', outcome) := evolve steps false interval (Some pbar) self in
    outcome = Ok tt /\
    _current_step self' = (_current_step self + Z.max 0 steps)%Z /\
    pbar' = Some (update pbar) /\
    n (update pbar) = (n pbar + 1)%Z.
Proof.
  intros steps interval pbar self. simpl.
  rewrite step_times_all_steps. repeat split. lia.
Qed.

Lemma evolve_tracked_notifies_each_tick (steps interval : Z) (pbar : tqdm)
    (self : VicsekModel G) :
  interval <> 0%Z ->
  exists self' pbar',
    evolve steps true interval (Some pbar) self = (self', Some pbar', Ok tt) /\
    n pbar' = (n pbar + Z.max 0 steps)%Z.
Proof.
  intros Hi. unfold evolve.
  destruct (evolve_tracking_notifies interval (Z.to_nat steps) pbar self Hi)
    as [Hok Hbar].
  destruct (evolve_tracking _ interval (Some pbar) self) as [[self' pbar'] r].
  simpl in Hok, Hbar. subst. eexists. eexists. split; [reflexivity|].
  rewrite updates_count. lia.
Qed.

Lemma replicas_one (steps : Z) (os_entropy : nat -> Z) (pbar : tqdm)
    (self : VicsekModel G) (i : nat) :
  let self' :=
    step_times (Z.to_nat steps) (init_state false (os_entropy i) self) in
  replicas 1 i steps os_entropy pbar [] self =
    (self',
     set_description ("Completed " ++ str i ++ " simulations") (update pbar),
     Ok [order_parameter self']).
Proof. reflexivity. Qed.

Lemma evolve_ensemble_one (steps : Z) (os_entropy : nat -> Z)
    (self : VicsekModel G) :
  let self' :=
    step_times (Z.to_nat steps) (init_state false (os_entropy 0%nat) self) in
  evolve_ensemble steps 1 os_entropy self =
    (self',
     set_description "Completed 0 simulations"
       (update {| total := 1 * steps; n := 0; desc := "Completed 0 simulations" |}),
     Ok (order_parameter self', NaN)).
Proof.
  intros self'. unfold evolve_ensemble.
  change (1 <? 0)%Z with false. change (Z.to_nat 1) with 1%nat.
  cbv iota. rewrite replicas_one. fold self'.
  now rewrite np_var_singleton, np_mean_singleton.
Qed.

(** C4, as the code has it. With [ensemble_size == 1] the ensemble run
    raises nothing: it returns the order parameter of its one replica as the
    mean and [nan] as the sample variance. *)
Theorem evolve_ensemble_of_one_returns_nan :
  forall (steps : Z) (os_entropy : nat -> Z) (self : VicsekModel G),
    let self' :=
      step_times (Z.to_nat steps) (init_state false (os_entropy 0%nat) self) in
    snd (evolve_ensemble steps 1 os_entropy self) =
      Ok (order_parameter self', NaN) /\
    fst (fst (evolve_ensemble steps 1 os_entropy self)) = self'.
Proof.
  intros steps os_entropy self self'. unfold self'.
  rewrite evolve_ensemble_one. split; reflexivity.
Qed.

End Evolution.

(** The bar of a three-step run without tracking: one notification. *)
Example three_steps_one_notification :
  let bar := {| total := 3; n := 0; desc := "" |} in
  option_map n (snd (fst (evolve 3 false 10 (Some bar) two_particles))) =
    Some 1%Z.
Proof. reflexivity. Qed.

(** C4, as stated, fails: an ensemble of one raises no error. *)
Lemma ensemble_of_one_does_not_raise :
  ~ raises (snd (evolve_ensemble 5 1 (fun _ => 0%Z) two_particles)) /\
  exists mean,
    snd (evolve_ensemble 5 1 (fun _ => 0%Z) two_particles) = Ok (mean, NaN).
Proof.
  rewrite evolve_ensemble_one. simpl snd. split.
  - intros [e He]. discriminate.
  - eexists. reflexivity.
Qed.

(** * Further properties of the code *)

(** ** Construction and assignment *)

Lemma expand_to_array_ok_iff (N : Z) (new : ParticleProperty) :
  (exists array, expand_to_array N new = Ok array) <->
  as_sequence new <> [] /\ (Z.of_nat (length (as_sequence new)) <= N)%Z.
Proof.
  destruct (Z_lt_le_dec N (Z.of_nat (length (as_sequence new)))) as [Hlt|Hle].
  - rewrite (expand_to_array_too_many N new Hlt). split.
    + intros [a Ha]. discriminate.
    + intros [_ Hle]. lia.
  - destruct (as_sequence new) as [|x l] eqn:Hseq.
    + simpl in Hle. rewrite (expand_to_array_empty N new Hseq Hle). split.
      * intros [a Ha]. discriminate.
      * intros [Hne _]. now contradiction Hne.
    + rewrite (expand_to_array_fits N new x l Hseq Hle). split.
      * intros _. split; [discriminate | exact Hle].
      * intros _. now eexists.
Qed.

Lemma not_Exists_negative (l : list R) :
  ~ Exists (fun w => w < 0) l <-> Forall (fun w => 0 <= w) l.
Proof.
  rewrite <- Forall_Exists_neg. split; apply Forall_impl; intros w Hw; lra.
Qed.

Lemma check_weights_ok (a : list R) :
  Forall (fun w => 0 <= w) a -> check_weights a = Ok a.
Proof.
  intros Hall. apply not_Exists_negative in Hall.
  rewrite <- existsb_negative in Hall. unfold check_weights.
  now destruct (existsb _ a).
Qed.

Lemma check_weights_inv (a b : list R) :
  check_weights a = Ok b -> a = b /\ Forall (fun w => 0 <= w) a.
Proof.
  unfold check_weights. destruct (existsb _ a) eqn:E; [discriminate|].
  intros [= <-]. split; [reflexivity|]. apply not_Exists_negative.
  rewrite <- existsb_negative, E. discriminate.
Qed.

Lemma Forall_padded (P : R -> Prop) (x : R) (l : list R) (k : nat) :
  Forall P (rev ((x :: l) ++ repeat (last (x :: l) 0) k)) <-> Forall P (x :: l).
Proof.
  rewrite !Forall_forall. split; intros Hall w Hin; apply Hall.
  - apply -> in_rev. apply in_or_app. now left.
  - apply in_rev, in_app_or in Hin. destruct Hin as [Hin|Hin]; [exact Hin|].
    apply repeat_spec in Hin. subst w.
    destruct (exists_last (l := x :: l)) as [l' [a Ha]]; [discriminate|].
    rewrite Ha, last_last. apply in_or_app. right. now left.
Qed.

Lemma set_weights_ok_iff (N : Z) (new : ParticleProperty) :
  (exists array, set_weights N new = Ok array) <->
  as_sequence new <> [] /\ (Z.of_nat (length (as_sequence new)) <= N)%Z /\
  Forall (fun w => 0 <= w) (as_sequence new).
Proof.
  split.
  - intros [b Hb]. unfold set_weights in Hb.
    destruct (expand_to_array N new) as [a|e] eqn:E; [|discriminate].
    assert (Hok : exists array, expand_to_array N new = Ok array)
      by (exists a; exact E).
    apply expand_to_array_ok_iff in Hok. destruct Hok as [Hne Hle].
    split; [exact Hne|]. split; [exact Hle|].
    destruct (as_sequence new) as [|x l] eqn:Hseq; [now contradiction Hne|].
    rewrite (expand_to_array_fits N new x l Hseq Hle) in E.
    simpl in Hb. apply check_weights_inv in Hb. destruct Hb as [_ Hall].
    replace a with
      (rev ((x :: l) ++ repeat (last (x :: l) 0) (Z.to_nat N - length (x :: l))))
      in Hall by congruence.
    now apply Forall_padded in Hall.
  - intros (Hne & Hle & Hall).
    destruct (as_sequence new) as [|x l] eqn:Hseq; [now contradiction Hne|].
    rewrite (set_weights_fits N new x l Hseq Hle).
    eexists. apply check_weights_ok. now apply Forall_padded.
Qed.

(** X1. A weights vector the setter accepts has one entry per particle, of
    which there is at least one, and no entry is negative. *)
Theorem accepted_weights_are_non_negative :
  forall (N : Z) (new : ParticleProperty) (array : list R),
    set_weights N new = Ok array ->
    (1 <= N)%Z /\ length array = Z.to_nat N /\ Forall (fun w => 0 <= w) array.
Proof.
  intros N new array E. split; [|split].
  - unfold set_weights in E.
    destruct (expand_to_array N new) as [a|e] eqn:Ea; [|discriminate].
    now apply expand_to_array_length in Ea.
  - now apply set_weights_length in E.
  - unfold set_weights in E.
    destruct (expand_to_array N new) as [a|e] eqn:Ea; [|discriminate].
    simpl in E. apply check_weights_inv in E. destruct E as [<- Hall]. exact Hall.
Qed.

Lemma set_weights_example : set_weights 3 (Sequence [2; 1]) = Ok [1; 1; 2].
Proof.
  rewrite (set_weights_fits 3 (Sequence [2; 1]) 2 [1]) by (simpl; (reflexivity || lia)).
  simpl. apply check_weights_ok. repeat constructor; lra.
Qed.

Lemma accepted_weights_are_non_negative_witness :
  set_weights 3 (Sequence [2; 1]) = Ok [1; 1; 2] /\
  (1 <= 3)%Z /\ length [1; 1; 2] = Z.to_nat 3 /\
  Forall (fun w => 0 <= w) [1; 1; 2].
Proof.
  split; [exact set_weights_example|].
  apply (accepted_weights_are_non_negative 3 (Sequence [2; 1]) [1; 1; 2]).
  exact set_weights_example.
Defined.

Lemma expand_full_length (N : Z) (v : list R) :
  v <> [] -> Z.of_nat (length v) = N ->
  expand_to_array N (Sequence v) = Ok (rev v).
Proof.
  intros Hne Hlen. destruct v as [|x l]; [now contradiction Hne|].
  rewrite (expand_to_array_fits N (Sequence (x :: l)) x l) by (reflexivity || lia).
  replace (Z.to_nat N - length (x :: l))%nat with 0%nat by lia.
  simpl repeat. now rewrite app_nil_r.
Qed.

Section Construction.

Context {G : Type} `{BitGenerator G} `{Rounding}.

(** X2. Assigning to [speed], [noise] or [radius] the array the model
    already stores does not leave it as it is: the setter reverses it. *)
Theorem assigning_the_stored_vector_reverses_it :
  forall self : VicsekModel G,
    valid_state self ->
    assign_speed (Sequence (_speed self)) self =
      Ok (with_speed (rev (_speed self)) self) /\
    assign_noise (Sequence (_noise self)) self =
      Ok (with_noise (rev (_noise self)) self) /\
    assign_radius (Sequence (_radius self)) self =
      Ok (with_radius (rev (_radius self)) self).
Proof.
  intros self (_ & HN & _ & _ & Hs & Hn & Hr & _).
  assert (Hfull : forall v : list R,
            length v = Z.to_nat (particles self) ->
            expand_to_array (particles self) (Sequence v) = Ok (rev v)).
  { intros v Hv. apply expand_full_length; [|lia].
    intros ->. simpl in Hv. lia. }
  unfold assign_speed, assign_noise, assign_radius, set_speed, set_noise, set_radius.
  rewrite !Hfull by assumption. repeat split.
Qed.

(** X3. [__init__] returns a model exactly when each of the four property
    inputs is a non-empty sequence (or a scalar) of at most [N] values and no
    weight is negative, [N] being the particle count of the box. *)
Theorem new_model_succeeds_iff :
  forall (length : Z) (density : R)
         (speed noise radius weights : ParticleProperty) (os_entropy : Z),
    let N := count_particles length density in
    let fits (p : ParticleProperty) :=
      as_sequence p <> [] /\ (Z.of_nat (List.length (as_sequence p)) <= N)%Z in
    (exists self : VicsekModel G,
       new_model length density speed noise radius weights os_entropy = Ok self) <->
    fits speed /\ fits noise /\ fits radius /\ fits weights /\
    Forall (fun w => 0 <= w) (as_sequence weights).
Proof.
  intros length density speed noise radius weights os_entropy N fits.
  unfold new_model, set_speed, set_noise, set_radius. fold N.
  pose proof (expand_to_array_ok_iff N speed) as Es.
  pose proof (expand_to_array_ok_iff N noise) as En.
  pose proof (expand_to_array_ok_iff N radius) as Er.
  pose proof (set_weights_ok_iff N weights) as Ew.
  fold (fits speed) in Es. fold (fits noise) in En. fold (fits radius) in Er.
  split.
  - intros [self E].
    destruct (expand_to_array N speed) as [s|]; [|discriminate].
    destruct (expand_to_array N noise) as [n0|]; [|discriminate].
    destruct (expand_to_array N radius) as [r|]; [|discriminate].
    destruct (set_weights N weights) as [w|]; [|discriminate].
    assert (Hs : fits speed) by (apply Es; now eexists).
    assert (Hn : fits noise) by (apply En; now eexists).
    assert (Hr : fits radius) by (apply Er; now eexists).
    assert (Hw : exists array, Ok w = Ok array) by now eexists.
    apply Ew in Hw. unfold fits. tauto.
  - intros (Hs & Hn & Hr & Hw & Hpos).
    apply Es in Hs. apply En in Hn. apply Er in Hr.
    assert (Hw' : exists array, set_weights N weights = Ok array)
      by (apply Ew; unfold fits in Hw; tauto).
    destruct Hs as [s ->]. destruct Hn as [n0 ->]. destruct Hr as [r ->].
    destruct Hw' as [w ->]. simpl. now eexists.
Qed.

(** X4. A box that holds less than one particle cannot be built: whatever
    the property inputs, [__init__] raises. *)
Theorem new_model_needs_a_particle :
  forall (length : Z) (density : R)
         (speed noise radius weights : ParticleProperty) (os_entropy : Z),
    (count_particles length density < 1)%Z ->
    raises (new_model (G := G) length density speed noise radius weights os_entropy).
Proof.
  intros length density speed noise radius weights os_entropy HN.
  unfold new_model, set_speed.
  destruct (expand_to_array _ speed) as [s|e] eqn:E.
  - apply expand_to_array_length in E. lia.
  - simpl. now exists e.
Qed.

(** X5. The model [__init__] returns has at least one particle, every array
    of the particle count, no negative weight, the step counter at 0 and a
    trajectory of the one entry of step 0. *)
Theorem new_model_postcondition :
  forall (length : Z) (density : R)
         (speed noise radius weights : ParticleProperty) (os_entropy : Z)
         (self : VicsekModel G),
    new_model length density speed noise radius weights os_entropy = Ok self ->
    let N := Z.to_nat (particles self) in
    _length self = length /\ _density self = density /\
    (1 <= particles self)%Z /\
    List.length (_positions self) = N /\ List.length (_headings self) = N /\
    List.length (_speed self) = N /\ List.length (_noise self) = N /\
    List.length (_radius self) = N /\ List.length (_weights self) = N /\
    Forall (fun w => 0 <= w) (_weights self) /\
    _current_step self = 0%Z /\
    _trajectory self = [(0%Z, order_parameter self)].
Proof.
  intros length density speed noise radius weights os_entropy self.
  unfold new_model, set_speed, set_noise, set_radius.
  destruct (expand_to_array _ speed) as [speed'|] eqn:Es; [|discriminate].
  destruct (expand_to_array _ noise) as [noise'|] eqn:En; [|discriminate].
  destruct (expand_to_array _ radius) as [radius'|] eqn:Er; [|discriminate].
  destruct (set_weights _ weights) as [weights'|] eqn:Ew; [|discriminate].
  simpl. intros [= <-]. rewrite fresh_state_fields.
  apply expand_to_array_length in Es, En, Er.
  pose proof (set_weights_length _ _ _ Ew) as Hw.
  unfold set_weights in Ew.
  destruct (expand_to_array _ weights) as [a|]; [|discriminate].
  simpl in Ew. apply check_weights_inv in Ew. destruct Ew as [<- Hpos].
  unfold particles, order_parameter. simpl.
  rewrite !length_map, random2_length, random_length.
  repeat split; tauto.
Qed.

End Construction.

Lemma assigning_the_stored_vector_reverses_it_witness :
  valid_state two_particles /\
  assign_radius (Sequence (_radius two_particles)) two_particles =
    Ok (with_radius [2; 1] two_particles).
Proof.
  split; [exact two_particles_valid|].
  apply (assigning_the_stored_vector_reverses_it two_particles two_particles_valid).
Defined.

Lemma count_particles_half : count_particles 1 (1 / 2) = 0%Z.
Proof.
  unfold count_particles, int_of_float.
  replace (1 / 2 * IZR (1 ^ 2)) with (1 / 2) by (simpl; lra).
  assert (E : Rltb (1 / 2) 0 = false) by (apply Rltb_false; lra).
  rewrite E. apply Zfloor_eq. simpl. lra.
Qed.

Lemma new_model_needs_a_particle_witness :
  (count_particles 1 (1 / 2) < 1)%Z /\
  raises (new_model (G := Z) 1 (1 / 2) (Scalar 1) (Scalar 0) (Scalar 1) (Scalar 1) 0).
Proof.
  assert (HN : (count_particles 1 (1 / 2) < 1)%Z) by (rewrite count_particles_half; lia).
  split; [exact HN|].
  apply (new_model_needs_a_particle 1 (1 / 2) (Scalar 1) (Scalar 0) (Scalar 1)
           (Scalar 1) 0 HN).
Defined.

Lemma new_model_two :
  new_model (G := Z) 2 (1 / 2) (Scalar 1) (Scalar 0) (Scalar 1) (Scalar 1) 0 =
    Ok (fresh_state false 0 2 (1 / 2) [1; 1] [0; 0] [1; 1] [1; 1]).
Proof.
  unfold new_model, set_speed, set_noise, set_radius.
  change (count_particles 2 (1 / 2)) with (particles two_particles).
  rewrite particles_two_particles.
  rewrite (set_weights_fits 2 (Scalar 1) 1 []) by (simpl; (reflexivity || lia)).
  simpl. rewrite check_weights_ok by (repeat constructor; lra). reflexivity.
Qed.

Lemma new_model_postcondition_witness :
  let self := fresh_state false 0 2 (1 / 2) [1; 1] [0; 0] [1; 1] [1; 1] in
  new_model (G := Z) 2 (1 / 2) (Scalar 1) (Scalar 0) (Scalar 1) (Scalar 1) 0 =
    Ok self /\
  (1 <= particles self)%Z /\
  Forall (fun w => 0 <= w) (_weights self) /\
  _trajectory self = [(0%Z, order_parameter self)].
Proof.
  intros self. split; [exact new_model_two|].
  pose proof (new_model_postcondition 2 (1 / 2) (Scalar 1) (Scalar 0) (Scalar 1)
                (Scalar 1) 0 self new_model_two) as Hpost.
  cbv zeta in Hpost. tauto.
Defined.

(** ** Runs of several steps *)

Lemma dict_get_set {V : Type} (q k : Z) (v : V) (d : list (Z * V)) :
  dict_get q (dict_set k v d) = if (q =? k)%Z then Some v else dict_get q d.
Proof.
  induction d as [|[k' v'] d IH]; simpl.
  - reflexivity.
  - destruct (Z.eqb_spec k k') as [->|Hkk']; simpl.
    + now destruct (q =? k')%Z.
    + rewrite IH. destruct (Z.eqb_spec q k) as [->|Hqk]; [|reflexivity].
      destruct (Z.eqb_spec k k'); [contradiction | reflexivity].
Qed.

Section Runs.

Context {G : Type} `{BitGenerator G} `{Rounding}.

Lemma step_in_closed_box (self : VicsekModel G) :
  faithful_rounding ->
  (_length self <= 2 ^ 53)%Z ->
  valid_state self -> valid_state (step self) /\ in_closed_box (step self).
Proof.
  intros Hfl HL Hv. split; [now apply step_valid|].
  unfold in_closed_box. destruct (step_frame_fields self) as (_ & _ & _ & _ & El & _).
  rewrite El. apply step_positions_range; [exact Hfl | destruct Hv; lia].
Qed.

Lemma record_order_parameter_as_trajectory (self : VicsekModel G) :
  record_order_parameter self =
    with_trajectory
      (dict_set (_current_step self) (order_parameter self) (_trajectory self))
      self.
Proof. reflexivity. Qed.

Lemma step_with_trajectory (t : list (Z * float64)) (self : VicsekModel G) :
  step (with_trajectory t self) = with_trajectory t (step self).
Proof.
  unfold step. simpl.
  change (particles (with_trajectory t self)) with (particles self).
  change (sum_of_sines (with_trajectory t self)) with (sum_of_sines self).
  change (sum_of_cosines (with_trajectory t self)) with (sum_of_cosines self).
  now destruct (random (Z.to_nat (particles self)) (_rng self)).
Qed.

Lemma step_times_with_trajectory (k : nat) (t : list (Z * float64))
    (self : VicsekModel G) :
  step_times k (with_trajectory t self) = with_trajectory t (step_times k self).
Proof.
  revert self. induction k as [|k IH]; intros self; [reflexivity|].
  simpl. now rewrite step_with_trajectory, IH.
Qed.

Lemma step_times_succ (k : nat) (self : VicsekModel G) :
  step_times (S k) self = step (step_times k self).
Proof.
  revert self. induction k as [|k IH]; intros self; [reflexivity|].
  change (step_times (S (S k)) self) with (step_times (S k) (step self)).
  now rewrite IH.
Qed.

Lemma step_times_trajectory (k : nat) (self : VicsekModel G) :
  _trajectory (step_times k self) = _trajectory self.
Proof.
  revert self. induction k as [|k IH]; intros self; [reflexivity|].
  simpl. rewrite IH. apply (step_frame_fields self).
Qed.

(** The tracking loop, in closed form: the state of the plain loop, with a
    trajectory of its own. *)
Lemma evolve_tracking_closed_form (interval : Z) (k : nat) (pbar : option tqdm)
    (self : VicsekModel G) :
  interval <> 0%Z ->
  exists t,
    evolve_tracking k interval pbar self =
      (with_trajectory t (step_times k self), Nat.iter k notify pbar, Ok tt) /\
    forall q : Z,
      dict_get q t =
        if ((_current_step self <? q) && (q <=? _current_step self + Z.of_nat k)
            && (q mod interval =? 0))%Z%bool
        then Some (order_parameter
                     (step_times (Z.to_nat (q - _current_step self)) self))
        else dict_get q (_trajectory self).
Proof.
  intros Hi. pose proof Hi as Hib. apply Z.eqb_neq in Hib.
  revert pbar self. induction k as [|k IH]; intros pbar self.
  - exists (_trajectory self). split.
    + simpl. now destruct self.
    + intros q.
      replace ((_current_step self <? q) && (q <=? _current_step self + Z.of_nat 0))%Z%bool
        with false; [reflexivity|].
      symmetry. apply andb_false_iff.
      destruct (Z.ltb_spec (_current_step self) q); [right|now left].
      apply Z.leb_gt. lia.
  - simpl evolve_tracking. rewrite Hib.
    assert (Hs : _current_step (step self) = (_current_step self + 1)%Z)
      by (unfold step; now destruct (random _ _)).
    set (c := _current_step self) in *.
    set (s1 := if (_current_step (step self) mod interval =? 0)%Z
               then record_order_parameter (step self) else step self).
    assert (Hs1 : exists t1, s1 = with_trajectory t1 (step self) /\
              forall q, dict_get q t1 =
                if ((q =? c + 1) && (q mod interval =? 0))%Z%bool
                then Some (order_parameter (step self))
                else dict_get q (_trajectory self)).
    { unfold s1. rewrite Hs.
      destruct ((c + 1) mod interval =? 0)%Z eqn:Hmod.
      - eexists. split; [apply record_order_parameter_as_trajectory|].
        intros q. rewrite dict_get_set, Hs.
        destruct (step_frame_fields self) as (_ & _ & _ & _ & _ & _ & Et).
        rewrite Et.
        destruct (Z.eqb_spec q (c + 1)) as [->|Hq]; [now rewrite Hmod | reflexivity].
      - exists (_trajectory self). split.
        + destruct (step_frame_fields self) as (_ & _ & _ & _ & _ & _ & Et).
          rewrite <- Et. now destruct (step self).
        + intros q.
          destruct (Z.eqb_spec q (c + 1)) as [->|Hq]; [now rewrite Hmod | reflexivity]. }
    destruct Hs1 as (t1 & Es1 & Ht1).
    destruct (IH (notify pbar) s1) as (t & Et & Hget).
    exists t. split.
    + rewrite Et, Es1, step_times_with_trajectory, Nat.iter_succ_r.
      reflexivity.
    + intros q. rewrite Hget.
      assert (Ec : _current_step s1 = (c + 1)%Z) by (rewrite Es1; exact Hs).
      assert (Et1 : _trajectory s1 = t1) by now rewrite Es1.
      rewrite Ec, Et1, Ht1, Nat2Z.inj_succ.
      destruct (Z.ltb_spec (c + 1) q) as [Hlt|Hge].
      * replace (c <? q)%Z with true by (symmetry; apply Z.ltb_lt; lia).
        replace (q <=? c + Z.succ (Z.of_nat k))%Z with (q <=? c + 1 + Z.of_nat k)%Z
          by (f_equal; lia).
        rewrite !andb_true_l.
        destruct ((q <=? c + 1 + Z.of_nat k) && (q mod interval =? 0))%Z%bool eqn:Hin.
        -- rewrite Es1, step_times_with_trajectory.
           replace (Z.to_nat (q - c)) with (S (Z.to_nat (q - (c + 1)))) by lia.
           reflexivity.
        -- replace (q =? c + 1)%Z with false by (symmetry; apply Z.eqb_neq; lia).
           reflexivity.
      * rewrite andb_false_l.
        destruct (Z.eqb_spec q (c + 1)) as [->|Hq].
        -- replace (c <? c + 1)%Z with true by (symmetry; apply Z.ltb_lt; lia).
           replace (c + 1 <=? c + Z.succ (Z.of_nat k))%Z with true
             by (symmetry; apply Z.leb_le; lia).
           rewrite !andb_true_l.
           replace (Z.to_nat (c + 1 - c)) with 1%nat by lia.
           reflexivity.
        -- rewrite andb_false_l. replace (c <? q)%Z with false
             by (symmetry; apply Z.ltb_ge; lia).
           reflexivity.
Qed.

End Runs.

Section RunProperties.

Context {G : Type} `{BitGenerator G} `{Rounding}.

Lemma step_times_in_closed_box (k : nat) (self : VicsekModel G) :
  faithful_rounding ->
  (_length self <= 2 ^ 53)%Z ->
  valid_state self -> in_closed_box self ->
  valid_state (step_times k self) /\ in_closed_box (step_times k self).
Proof.
  intros Hfl. revert self. induction k as [|k IH]; intros self HL Hv Hb; [now split|].
  simpl. destruct (step_in_closed_box self Hfl HL Hv) as [Hv1 Hb1].
  apply IH; trivial.
  destruct (step_frame_fields self) as (_ & _ & _ & _ & El & _). now rewrite El.
Qed.

Lemma step_times_valid (k : nat) (self : VicsekModel G) :
  valid_state self -> valid_state (step_times k self).
Proof.
  revert self. induction k as [|k IH]; intros self Hv; [exact Hv|].
  simpl. apply IH. now apply step_valid.
Qed.

Lemma step_times_particles (k : nat) (self : VicsekModel G) :
  particles (step_times k self) = particles self.
Proof.
  revert self. induction k as [|k IH]; intros self; [reflexivity|].
  simpl. rewrite IH. unfold particles.
  destruct (step_frame_fields self) as (_ & _ & _ & _ & El & Ed & _).
  now rewrite El, Ed.
Qed.

Lemma step_times_in_box_lengths (k : nat) (self : VicsekModel G) :
  valid_state self ->
  length (_headings (step_times k self)) = Z.to_nat (particles self) /\
  length (_positions (step_times k self)) = Z.to_nat (particles self).
Proof.
  intros Hv. pose proof (step_times_valid k self Hv) as (_ & _ & Hp & Hh & _).
  rewrite step_times_particles in Hp, Hh. now split.
Qed.

Lemma evolve_state (steps : Z) (track : bool) (interval : Z)
    (pbar : option tqdm) (self : VicsekModel G) :
  exists t (k : nat),
    fst (fst (evolve steps track interval pbar self)) =
      with_trajectory t (step_times k self).
Proof.
  destruct track; simpl.
  - destruct (Z.eq_dec interval 0) as [->|Hi].
    + destruct (Z.to_nat steps) as [|k].
      * exists (_trajectory self), 0%nat. simpl. now destruct self.
      * exists (_trajectory (step self)), 1%nat. simpl. now destruct (step self).
    + destruct (evolve_tracking_closed_form interval (Z.to_nat steps) pbar self Hi)
        as (t & Et & _).
      exists t, (Z.to_nat steps). now rewrite Et.
  - exists (_trajectory (step_times (Z.to_nat steps) self)), (Z.to_nat steps).
    now destruct (step_times (Z.to_nat steps) self).
Qed.

(** X6. Whatever its arguments and whether it returns or raises, [evolve]
    takes a valid state with every particle in the closed box
    [[0, length]] (of a side binary64 holds) to a valid state with every
    particle in the closed box. *)
Theorem evolve_keeps_the_state_valid :
  forall (steps : Z) (track_order_parameter : bool) (interval : Z)
         (pbar : option tqdm) (self : VicsekModel G),
    faithful_rounding ->
    (_length self <= 2 ^ 53)%Z ->
    valid_state self ->
    in_closed_box self ->
    valid_state (fst (fst (evolve steps track_order_parameter interval pbar self))) /\
    in_closed_box
      (fst (fst (evolve steps track_order_parameter interval pbar self))).
Proof.
  intros steps track interval pbar self Hfl HL Hv Hb.
  destruct (evolve_state steps track interval pbar self) as (t & k & ->).
  exact (step_times_in_closed_box k self Hfl HL Hv Hb).
Qed.

(** X7. With a non-zero interval a tracked run returns normally and moves
    the model exactly as the untracked run of as many steps does: the same
    positions, headings, generator and step counter, the counter being
    [max(0, steps)] further; only the trajectory can differ. *)
Theorem tracking_does_not_change_the_run :
  forall (steps interval : Z) (pbar : option tqdm) (self : VicsekModel G),
    interval <> 0%Z ->
    let tracked := evolve steps true interval pbar self in
    let plain := evolve steps false interval pbar self in
    snd tracked = Ok tt /\
    _positions (fst (fst tracked)) = _positions (fst (fst plain)) /\
    _headings (fst (fst tracked)) = _headings (fst (fst plain)) /\
    _rng (fst (fst tracked)) = _rng (fst (fst plain)) /\
    _current_step (fst (fst tracked)) = _current_step (fst (fst plain)) /\
    _current_step (fst (fst tracked)) = (_current_step self + Z.max 0 steps)%Z.
Proof.
  intros steps interval pbar self Hi. simpl.
  destruct (evolve_tracking_closed_form interval (Z.to_nat steps) pbar self Hi)
    as (t & Et & _).
  rewrite Et. simpl. rewrite step_times_all_steps. repeat split. lia.
Qed.

(** X8. A tracked run with [interval = 0] and at least one step raises
    [ZeroDivisionError] at its first tick: the model has then moved one
    step, the bar has not been notified and the trajectory is untouched. *)
Theorem zero_interval_raises_after_one_step :
  forall (steps : Z) (pbar : option tqdm) (self : VicsekModel G),
    (0 < steps)%Z ->
    evolve steps true 0 pbar self =
      (step self, pbar, Raise (ZeroDivisionError "integer modulo by zero")) /\
    _current_step (step self) = (_current_step self + 1)%Z /\
    _trajectory (step self) = _trajectory self.
Proof.
  intros steps pbar self Hpos. split; [|split].
  - unfold evolve. destruct (Z.to_nat steps) as [|k] eqn:Hk; [lia|]. reflexivity.
  - unfold step. now destruct (random _ _).
  - apply (step_frame_fields self).
Qed.

(** X9. A tracked run of [steps] steps from step [c], with a non-zero
    interval, stores under each multiple [q] of the interval with
    [c < q <= c + steps] the order parameter the model has after [q - c]
    steps, and leaves every other key of the trajectory as it was; an
    untracked run leaves the whole trajectory as it was. *)
Theorem tracked_run_records_the_multiples :
  forall (steps interval : Z) (pbar : option tqdm) (self : VicsekModel G) (q : Z),
    interval <> 0%Z ->
    let c := _current_step self in
    dict_get q (_trajectory (fst (fst (evolve steps true interval pbar self)))) =
      (if ((c <? q) && (q <=? c + Z.max 0 steps) && (q mod interval =? 0))%Z%bool
       then Some (order_parameter (step_times (Z.to_nat (q - c)) self))
       else dict_get q (_trajectory self)) /\
    _trajectory (fst (fst (evolve steps false interval pbar self))) =
      _trajectory self.
Proof.
  intros steps interval pbar self q Hi c. split.
  - unfold evolve.
    destruct (evolve_tracking_closed_form interval (Z.to_nat steps) pbar self Hi)
      as (t & Et & Hget).
    rewrite Et. simpl. rewrite Hget. fold c.
    now replace (Z.of_nat (Z.to_nat steps)) with (Z.max 0 steps) by lia.
  - simpl. apply step_times_trajectory.
Qed.

End RunProperties.

Lemma two_particles_in_closed_box : in_closed_box two_particles.
Proof. unfold in_closed_box. simpl. repeat constructor; simpl; lra. Qed.

Lemma evolve_keeps_the_state_valid_witness :
  faithful_rounding (H := grid) /\
  (_length two_particles <= 2 ^ 53)%Z /\
  valid_state two_particles /\ in_closed_box two_particles /\
  valid_state (fst (fst (evolve 4 true 2 None two_particles))) /\
  in_closed_box (fst (fst (evolve 4 true 2 None two_particles))).
Proof.
  assert (HL : (_length two_particles <= 2 ^ 53)%Z) by (simpl; lia).
  split; [exact grid_faithful|]. split; [exact HL|].
  split; [exact two_particles_valid|]. split; [exact two_particles_in_closed_box|].
  apply (evolve_keeps_the_state_valid 4 true 2 None two_particles
           grid_faithful HL two_particles_valid two_particles_in_closed_box).
Defined.

Lemma tracking_does_not_change_the_run_witness :
  2%Z <> 0%Z /\
  snd (evolve 4 true 2 None two_particles) = Ok tt /\
  _positions (fst (fst (evolve 4 true 2 None two_particles))) =
    _positions (fst (fst (evolve 4 false 2 None two_particles))).
Proof.
  assert (Hi : 2%Z <> 0%Z) by lia. split; [exact Hi|].
  destruct (tracking_does_not_change_the_run 4 2 None two_particles Hi)
    as (Hok & Hp & _).
  split; assumption.
Defined.

Lemma zero_interval_raises_after_one_step_witness :
  (0 < 3)%Z /\
  evolve 3 true 0 None two_particles =
    (step two_particles, None, Raise (ZeroDivisionError "integer modulo by zero")).
Proof.
  assert (Hpos : (0 < 3)%Z) by lia. split; [exact Hpos|].
  apply (zero_interval_raises_after_one_step 3 None two_particles Hpos).
Defined.

Lemma tracked_run_records_the_multiples_witness :
  2%Z <> 0%Z /\
  dict_get 2 (_trajectory (fst (fst (evolve 4 true 2 None two_particles)))) =
    Some (order_parameter (step_times 2 two_particles)).
Proof.
  assert (Hi : 2%Z <> 0%Z) by lia. split; [exact Hi|].
  destruct (tracked_run_records_the_multiples 4 2 None two_particles 2 Hi)
    as [Hget _].
  exact Hget.
Defined.

(** ** Ensembles *)

Lemma np_mean_nil : np_mean [] = NaN.
Proof.
  unfold np_mean, np_sum. simpl.
  assert (E : Reqb 0 0 = true) by now apply Reqb_true.
  now rewrite E.
Qed.

Lemma np_var_nil : np_var 1 [] = NaN.
Proof.
  unfold np_var, np_sum. simpl. change (Z.max (-1) 0) with 0%Z.
  assert (E : Reqb 0 0 = true) by now apply Reqb_true.
  now rewrite !E.
Qed.

Section Ensembles.

Context {G : Type} `{BitGenerator G} `{Rounding}.

(** Two models of one configuration: the attributes [init_state] reads. *)
Local Abbreviation same_configuration a b :=
  (_length a = _length b /\ _density a = _density b /\
   _speed a = _speed b /\ _noise a = _noise b /\
   _radius a = _radius b /\ _weights a = _weights b).

Lemma init_state_reads_configuration (reproducible : bool) (os_entropy : Z)
    (a b : VicsekModel G) :
  same_configuration a b ->
  init_state reproducible os_entropy a = init_state reproducible os_entropy b.
Proof.
  intros (El & Ed & Es & En & Er & Ew). unfold init_state.
  now rewrite El, Ed, Es, En, Er, Ew.
Qed.

Lemma init_state_keeps_configuration (reproducible : bool) (os_entropy : Z)
    (a : VicsekModel G) :
  same_configuration a (init_state reproducible os_entropy a).
Proof. unfold init_state. rewrite fresh_state_fields. repeat split. Qed.

Lemma step_times_keeps_configuration (k : nat) (a : VicsekModel G) :
  same_configuration a (step_times k a).
Proof.
  revert a. induction k as [|k IH]; intros a; [repeat split|].
  simpl. destruct (IH (step a)) as (El & Ed & Es & En & Er & Ew).
  destruct (step_frame_fields a) as (Fs & Fr & Fn & Fw & Fl & Fd & _).
  rewrite <- El, <- Ed, <- Es, <- En, <- Er, <- Ew. repeat split; congruence.
Qed.

(** The loop of [evolve_ensemble], in closed form. *)
Lemma replicas_closed_form (steps : Z) (os_entropy : nat -> Z)
    (self0 : VicsekModel G) (count i : nat) (pbar : tqdm)
    (samples : list float64) (self : VicsekModel G) :
  same_configuration self0 self ->
  let replica j :=
    step_times (Z.to_nat steps) (init_state false (os_entropy j) self0) in
  replicas count i steps os_entropy pbar samples self =
    (match count with O => self | S c => replica (i + c)%nat end,
     {| total := total pbar;
        n := n pbar + Z.of_nat count;
        desc := match count with
                | O => desc pbar
                | S c => "Completed " ++ str (i + c) ++ " simulations"
                end |},
     Ok (samples ++ map (fun j => order_parameter (replica j)) (seq i count))%list).
Proof.
  intros Hcfg replica. revert i pbar samples self Hcfg.
  induction count as [|c IH]; intros i pbar samples self Hcfg.
  - simpl. rewrite app_nil_r, Z.add_0_r. now destruct pbar.
  - assert (Ei : init_state false (os_entropy i) self =
                 init_state false (os_entropy i) self0)
      by (symmetry; now apply init_state_reads_configuration).
    change (replicas (S c) i steps os_entropy pbar samples self) with
      (replicas c (S i) steps os_entropy
         (set_description ("Completed " ++ str i ++ " simulations") (update pbar))
         (samples ++
          [order_parameter
             (step_times (Z.to_nat steps)
                (init_state false (os_entropy i) self))])%list
         (step_times (Z.to_nat steps) (init_state false (os_entropy i) self))).
    rewrite Ei. fold (replica i). rewrite IH.
    + rewrite <- app_assoc.
      change (seq i (S c)) with (i :: seq (S i) c).
      change (map (fun j => order_parameter (replica j)) (i :: seq (S i) c))
        with (order_parameter (replica i)
              :: map (fun j => order_parameter (replica j)) (seq (S i) c)).
      change ([order_parameter (replica i)] ++
              map (fun j => order_parameter (replica j)) (seq (S i) c))%list
        with (order_parameter (replica i)
              :: map (fun j => order_parameter (replica j)) (seq (S i) c)).
      replace (n (set_description ("Completed " ++ str i ++ " simulations")
                    (update pbar)) + Z.of_nat c)%Z
        with (n pbar + Z.of_nat (S c))%Z by (simpl n; lia).
      destruct c as [|c'].
      * now rewrite Nat.add_0_r.
      * now replace (S i + c')%nat with (i + S c')%nat by lia.
    + unfold replica.
      pose proof (init_state_keeps_configuration false (os_entropy i) self0)
        as (El & Ed & Es & En & Er & Ew).
      pose proof (step_times_keeps_configuration (Z.to_nat steps)
                    (init_state false (os_entropy i) self0))
        as (Fl & Fd & Fs & Fn & Fr & Fw).
      repeat split; congruence.
Qed.

Lemma evolve_ensemble_closed_form (steps ensemble_size : Z)
    (os_entropy : nat -> Z) (self : VicsekModel G) :
  (0 <= ensemble_size)%Z ->
  let replica j :=
    step_times (Z.to_nat steps) (init_state false (os_entropy j) self) in
  let samples :=
    map (fun j => order_parameter (replica j)) (seq 0 (Z.to_nat ensemble_size)) in
  evolve_ensemble steps ensemble_size os_entropy self =
    (match Z.to_nat ensemble_size with O => self | S c => replica c end,
     {| total := ensemble_size * steps;
        n := ensemble_size;
        desc := match Z.to_nat ensemble_size with
                | O => "Completed 0 simulations"
                | S c => "Completed " ++ str c ++ " simulations"
                end |},
     Ok (np_mean samples, np_var 1 samples)).
Proof.
  intros Hk replica samples. unfold evolve_ensemble.
  replace (ensemble_size <? 0)%Z with false by (symmetry; apply Z.ltb_ge; lia).
  rewrite (replicas_closed_form steps os_entropy self) by repeat split.
  simpl app. fold replica. fold samples. simpl total. simpl n. simpl desc.
  replace (0 + Z.of_nat (Z.to_nat ensemble_size))%Z with ensemble_size by lia.
  reflexivity.
Qed.

(** X10. Each sample of an ensemble run depends on the configuration and on
    the entropy of its own replica alone: sample [j] is the order parameter
    after [steps] steps from the state [init_state] builds with that
    entropy. The run returns the mean and the [ddof=1] variance of these
    samples and does not raise when [ensemble_size >= 1]; it leaves the model
    as its last replica, the caller's positions, step counter and trajectory
    being lost. *)
Theorem ensemble_replicas_are_independent :
  forall (steps ensemble_size : Z) (os_entropy : nat -> Z) (self : VicsekModel G),
    (0 < ensemble_size)%Z ->
    let replica j :=
      step_times (Z.to_nat steps) (init_state false (os_entropy j) self) in
    let samples :=
      map (fun j => order_parameter (replica j))
        (seq 0 (Z.to_nat ensemble_size)) in
    let last := replica (Z.to_nat ensemble_size - 1)%nat in
    snd (evolve_ensemble steps ensemble_size os_entropy self) =
      Ok (np_mean samples, np_var 1 samples) /\
    fst (fst (evolve_ensemble steps ensemble_size os_entropy self)) = last /\
    _current_step last = Z.max 0 steps /\
    exists op, _trajectory last = [(0%Z, op)].
Proof.
  intros steps ensemble_size os_entropy self Hk replica samples last.
  rewrite evolve_ensemble_closed_form by lia. fold replica. fold samples.
  destruct (Z.to_nat ensemble_size) as [|c] eqn:Ek; [lia|].
  assert (El : last = replica c) by (unfold last; f_equal; lia).
  split; [reflexivity|]. split; [now rewrite El|].
  unfold last, replica. rewrite step_times_all_steps, step_times_trajectory.
  unfold init_state. rewrite fresh_state_fields. simpl.
  split; [lia | now eexists].
Qed.

(** X11. The edge sizes of an ensemble: a negative [ensemble_size] raises
    the [ValueError] of [np.empty], and the size 0 returns [(nan, nan)]; in
    both cases the model is not touched. *)
Theorem empty_ensemble_returns_nan :
  forall (steps ensemble_size : Z) (os_entropy : nat -> Z) (self : VicsekModel G),
    (ensemble_size <= 0)%Z ->
    fst (fst (evolve_ensemble steps ensemble_size os_entropy self)) = self /\
    snd (evolve_ensemble steps ensemble_size os_entropy self) =
      (if (ensemble_size <? 0)%Z
       then Raise (ValueError "negative dimensions are not allowed")
       else Ok (NaN, NaN)).
Proof.
  intros steps ensemble_size os_entropy self Hk.
  destruct (Z.ltb_spec ensemble_size 0) as [Hneg|Hzero].
  - unfold evolve_ensemble.
    replace (ensemble_size <? 0)%Z with true by (symmetry; apply Z.ltb_lt; lia).
    split; reflexivity.
  - rewrite evolve_ensemble_closed_form by lia.
    replace (Z.to_nat ensemble_size) with 0%nat by lia.
    simpl. now rewrite np_mean_nil, np_var_nil.
Qed.

(** X12. When an ensemble run of [ensemble_size >= 1] replicas ends, its
    progress bar, created with [total = ensemble_size * steps], has counted
    [ensemble_size] updates, and its label names [ensemble_size - 1]
    completed simulations. *)
Theorem ensemble_bar_at_the_end :
  forall (steps ensemble_size : Z) (os_entropy : nat -> Z) (self : VicsekModel G),
    (0 < ensemble_size)%Z ->
    let pbar := snd (fst (evolve_ensemble steps ensemble_size os_entropy self)) in
    total pbar = (ensemble_size * steps)%Z /\
    n pbar = ensemble_size /\
    desc pbar =
      "Completed " ++ str (Z.to_nat (ensemble_size - 1)) ++ " simulations".
Proof.
  intros steps ensemble_size os_entropy self Hk pbar. unfold pbar.
  rewrite evolve_ensemble_closed_form by lia.
  destruct (Z.to_nat ensemble_size) as [|c] eqn:Ek; [lia|].
  cbn [fst snd total n desc]. repeat split.
  now replace (Z.to_nat (ensemble_size - 1)) with c by lia.
Qed.

End Ensembles.

Lemma ensemble_replicas_are_independent_witness :
  (0 < 3)%Z /\
  snd (evolve_ensemble 5 3 Z.of_nat two_particles) =
    Ok (np_mean
          (map (fun j =>
                  order_parameter
                    (step_times 5 (init_state false (Z.of_nat j) two_particles)))
             [0; 1; 2]%nat),
        np_var 1
          (map (fun j =>
                  order_parameter
                    (step_times 5 (init_state false (Z.of_nat j) two_particles)))
             [0; 1; 2]%nat)).
Proof.
  assert (Hk : (0 < 3)%Z) by lia. split; [exact Hk|].
  apply (ensemble_replicas_are_independent 5 3 Z.of_nat two_particles Hk).
Defined.

Lemma empty_ensemble_returns_nan_witness :
  (0 <= 0)%Z /\
  fst (fst (evolve_ensemble 5 0 Z.of_nat two_particles)) = two_particles /\
  snd (evolve_ensemble 5 0 Z.of_nat two_particles) = Ok (NaN, NaN).
Proof.
  assert (Hk : (0 <= 0)%Z) by lia. split; [exact Hk|].
  apply (empty_ensemble_returns_nan 5 0 Z.of_nat two_particles Hk).
Defined.

Lemma ensemble_bar_at_the_end_witness :
  (0 < 3)%Z /\
  snd (fst (evolve_ensemble 5 3 Z.of_nat two_particles)) =
    {| total := 15; n := 3; desc := "Completed 2 simulations" |}.
Proof.
  assert (Hk : (0 < 3)%Z) by lia. split; [exact Hk|].
  destruct (ensemble_bar_at_the_end 5 3 Z.of_nat two_particles Hk)
    as (Ht & Hn & Hd).
  destruct (snd (fst (evolve_ensemble 5 3 Z.of_nat two_particles)))
    as [t c d]. simpl in Ht, Hn, Hd. now subst.
Defined.

(** ** Re-initialisation, velocities *)

Lemma norm_scaled_direction (s h : R) : norm (scale s (direction h)) = Rabs s.
Proof.
  unfold norm, scale, direction. simpl.
  replace (s * cos h * (s * cos h) + s * sin h * (s * sin h))
    with (Rsqr s * (Rsqr (sin h) + Rsqr (cos h))) by (unfold Rsqr; ring).
  rewrite sin2_cos2, Rmult_1_r. apply sqrt_Rsqr_abs.
Qed.

Lemma count_particles_four : count_particles 4 (1 / 2) = 8%Z.
Proof.
  unfold count_particles.
  replace (1 / 2 * IZR (4 ^ 2)) with (IZR 8) by (simpl; lra).
  apply int_of_float_IZR.
Qed.

Section Reinitialisation.

Context {G : Type} `{BitGenerator G} `{Rounding}.

Lemma random_draws (n : nat) (g : G) :
  unit_draws -> Forall (fun u => 0 <= u < 1) (fst (random n g)).
Proof.
  intros Hunit. revert g. induction n as [|n IH]; intros g; [constructor|].
  simpl. pose proof (Hunit g) as Hu. destruct (next_double g) as [u g1].
  specialize (IH g1). destruct (random n g1) as [us g2]. simpl in *.
  now constructor.
Qed.

Lemma random2_draws (n : nat) (g : G) :
  unit_draws ->
  Forall (fun p => 0 <= fst p < 1 /\ 0 <= snd p < 1) (fst (random2 n g)).
Proof.
  intros Hunit. revert g. induction n as [|n IH]; intros g; [constructor|].
  simpl. pose proof (Hunit g) as Hu. destruct (next_double g) as [u g1].
  pose proof (Hunit g1) as Hv. destruct (next_double g1) as [v g2].
  specialize (IH g2). destruct (random2 n g2) as [ps g3]. simpl in *.
  constructor; [now split | assumption].
Qed.

(** X13. When the generator keeps its promise of draws in [[0, 1)],
    [init_state] on a positive box puts one particle per unit of the
    particle count inside the box and gives each a heading of [[0, 2 pi)]. *)
Theorem init_state_fills_the_box :
  forall (reproducible : bool) (os_entropy : Z) (self : VicsekModel G),
    unit_draws ->
    (0 < _length self)%Z ->
    let self' := init_state reproducible os_entropy self in
    length (_positions self') = Z.to_nat (particles self) /\
    length (_headings self') = Z.to_nat (particles self) /\
    in_box self' /\
    Forall (fun h => 0 <= h < 2 * PI) (_headings self').
Proof.
  intros reproducible os_entropy self Hunit HL self'. unfold self', init_state, in_box.
  rewrite fresh_state_fields. simpl.
  assert (HLr : 0 < IZR (_length self)) by now apply IZR_lt.
  pose proof PI_RGT_0 as Hpi.
  rewrite !length_map, random2_length, random_length.
  split; [reflexivity|]. split; [reflexivity|]. split.
  - apply Forall_map. eapply Forall_impl; [|apply random2_draws, Hunit].
    intros [u v] [Hu Hv]. simpl in *. split; split; nra.
  - apply Forall_map. eapply Forall_impl; [|apply random_draws, Hunit].
    intros u Hu. simpl. split; nra.
Qed.

Lemma order_parameter_on_fits (speed headings : list R) :
  length speed = length headings ->
  order_parameter_on speed headings = Ok (order_parameter_of speed headings).
Proof.
  intros E. unfold order_parameter_on, broadcast_velocities.
  rewrite length_map, E, Nat.eqb_refl. reflexivity.
Qed.

Lemma order_parameter_on_misfit (speed headings : list R) :
  length speed <> length headings ->
  length speed <> 1%nat ->
  length headings <> 1%nat ->
  is_ValueError (order_parameter_on speed headings).
Proof.
  intros Hne Hs Hh. unfold order_parameter_on, broadcast_velocities.
  rewrite length_map.
  apply Nat.eqb_neq in Hne, Hs, Hh. rewrite Hne, Hs, Hh. simpl. now eexists.
Qed.

Lemma reinit_state_fits (reproducible : bool) (os_entropy : Z)
    (self : VicsekModel G) :
  (0 <= particles self)%Z ->
  length (_speed self) = Z.to_nat (particles self) ->
  reinit_state reproducible os_entropy self =
    (init_state reproducible os_entropy self, Ok tt).
Proof.
  intros HN Hs. unfold reinit_state, init_state, fresh_state, particles in *.
  replace (count_particles (_length self) (_density self) <? 0)%Z with false
    by (symmetry; apply Z.ltb_ge; exact HN).
  set (rng := if reproducible then _ else _).
  pose proof (random2_length
    (Z.to_nat (count_particles (_length self) (_density self))) rng) as H2.
  destruct (random2 _ rng) as [u rng1]. simpl in H2.
  pose proof (random_length
    (Z.to_nat (count_particles (_length self) (_density self))) rng1) as H1.
  destruct (random _ rng1) as [v rng2]. simpl in H1.
  rewrite order_parameter_on_fits by (rewrite length_map; congruence).
  reflexivity.
Qed.

Lemma reinit_state_negative (reproducible : bool) (os_entropy : Z)
    (self : VicsekModel G) :
  (particles self < 0)%Z ->
  reinit_state reproducible os_entropy self =
    (with_rng
       (if reproducible then default_rng 123456%Z else default_rng os_entropy)
       self,
     Raise (ValueError "negative dimensions are not allowed")).
Proof.
  intros HN. unfold reinit_state.
  replace (particles self <? 0)%Z with true by (symmetry; apply Z.ltb_lt; exact HN).
  now destruct reproducible.
Qed.

(** What a re-initialisation leaves when [order_parameter] refuses the
    shapes: the new positions and headings, the step counter at 0, and the
    old vectors and trajectory. *)
Local Abbreviation half_reset old r :=
  (is_ValueError (snd r) /\
   _length (fst r) = _length old /\ _density (fst r) = _density old /\
   _speed (fst r) = _speed old /\ _noise (fst r) = _noise old /\
   _radius (fst r) = _radius old /\ _weights (fst r) = _weights old /\
   _trajectory (fst r) = _trajectory old /\
   _current_step (fst r) = 0%Z /\
   length (_positions (fst r)) = Z.to_nat (particles old) /\
   length (_headings (fst r)) = Z.to_nat (particles old)).

Lemma reinit_state_misfit (reproducible : bool) (os_entropy : Z)
    (self : VicsekModel G) :
  (0 <= particles self)%Z ->
  length (_speed self) <> Z.to_nat (particles self) ->
  length (_speed self) <> 1%nat ->
  Z.to_nat (particles self) <> 1%nat ->
  half_reset self (reinit_state reproducible os_entropy self).
Proof.
  intros HN Hne Hs Hh. unfold reinit_state.
  replace (particles self <? 0)%Z with false by (symmetry; apply Z.ltb_ge; exact HN).
  set (rng := if reproducible then _ else _).
  pose proof (random2_length (Z.to_nat (particles self)) rng) as H2.
  destruct (random2 _ rng) as [u rng1]. simpl in H2.
  pose proof (random_length (Z.to_nat (particles self)) rng1) as H1.
  destruct (random _ rng1) as [v rng2]. simpl in H1.
  destruct (order_parameter_on_misfit (_speed self) (map (fun x => x * 2 * PI) v))
    as [msg Hmsg]; rewrite ?length_map; try congruence.
  rewrite Hmsg. simpl. rewrite !length_map.
  repeat split; try assumption. now exists msg.
Qed.

Lemma count_particles_sign (length : Z) (density : R) :
  ((1 <= count_particles length density)%Z -> 0 < density) /\
  (0 <= density -> (0 <= count_particles length density)%Z).
Proof.
  unfold count_particles, int_of_float.
  assert (Hsq : 0 <= IZR (length ^ 2))
    by (apply IZR_le; rewrite Z.pow_2_r; nia).
  split.
  - destruct (Rltb (density * IZR (length ^ 2)) 0) eqn:E.
    + apply Rltb_true in E. unfold Zceil. intros Hc.
      assert (Hf : (0 <= Zfloor (- (density * IZR (length ^ 2))))%Z)
        by (apply (Zfloor_lub 0); lra).
      lia.
    + apply Rltb_false in E. intros Hc.
      pose proof (Zfloor_bound (density * IZR (length ^ 2))) as Hb.
      apply IZR_le in Hc. nra.
  - intros Hd.
    assert (E : Rltb (density * IZR (length ^ 2)) 0 = false)
      by (apply Rltb_false; nra).
    rewrite E. apply (Zfloor_lub 0). nra.
Qed.

(** X14. The [length] and [density] setters of a valid model re-initialise
    it for the new particle count [N'].  When [N'] is the old count the
    state is the one [init_state] builds.  When it is another count (the old
    one being at least 2 and [N'] not 1) the setter raises [ValueError] from
    [order_parameter], whose [speed] has the old length: the model is left
    with the new positions and headings and the step counter at 0, but with
    its old parameter vectors and its old trajectory.  A density that makes
    [N'] negative raises at the first draw, when only the density and the
    generator have changed. *)
Theorem resizing_keeps_the_old_vectors :
  forall (new_length : Z) (new_density : R) (os_entropy : Z) (self : VicsekModel G),
    valid_state self ->
    _reset_flag self = true ->
    let resized := set_length new_length os_entropy self in
    let refilled := set_density new_density os_entropy self in
    (particles (with_length new_length self) = particles self ->
     resized = (init_state false os_entropy (with_length new_length self), Ok tt)) /\
    (particles (with_density new_density self) = particles self ->
     refilled = (init_state false os_entropy (with_density new_density self), Ok tt)) /\
    ((2 <= particles self)%Z ->
     particles (with_length new_length self) <> particles self ->
     particles (with_length new_length self) <> 1%Z ->
     half_reset (with_length new_length self) resized) /\
    ((2 <= particles self)%Z ->
     (0 <= particles (with_density new_density self))%Z ->
     particles (with_density new_density self) <> particles self ->
     particles (with_density new_density self) <> 1%Z ->
     half_reset (with_density new_density self) refilled) /\
    ((particles (with_density new_density self) < 0)%Z ->
     refilled =
       (with_rng (default_rng os_entropy) (with_density new_density self),
        Raise (ValueError "negative dimensions are not allowed"))).
Proof.
  intros new_length new_density os_entropy self Hv Hflag resized refilled.
  pose proof Hv as (_ & HN & _ & _ & Hs & _).
  assert (Hd : 0 < _density self)
    by (apply (count_particles_sign (_length self)); exact HN).
  assert (HNl : (0 <= particles (with_length new_length self))%Z)
    by (apply count_particles_sign; simpl; lra).
  unfold resized, refilled, set_length, set_density.
  simpl _reset_flag. rewrite Hflag.
  split; [|split; [|split; [|split]]].
  - intros E. apply reinit_state_fits; [exact HNl|]. simpl _speed. now rewrite E.
  - intros E. apply reinit_state_fits; [rewrite E; lia|]. simpl _speed. now rewrite E.
  - intros H2 Hne H1. apply reinit_state_misfit; simpl _speed; rewrite ?Hs; lia.
  - intros H2 H0' Hne H1. apply reinit_state_misfit; simpl _speed; rewrite ?Hs; lia.
  - intros Hneg. now rewrite reinit_state_negative.
Qed.

(** X15. Every particle of a valid state moves at its own speed: the
    velocities are as many as the particles, and the length of each is the
    absolute value of the speed of its particle. *)
Theorem velocities_have_the_speeds :
  forall (self : VicsekModel G) (i : nat),
    valid_state self ->
    (i < Z.to_nat (particles self))%nat ->
    length (velocities self) = Z.to_nat (particles self) /\
    norm (nth i (velocities self) (0, 0)) = Rabs (nth i (_speed self) 0).
Proof.
  intros self i (_ & _ & _ & Hh & Hs & _) Hi. unfold velocities.
  rewrite velocity_array_length, Hh, Hs. split; [lia|].
  unfold velocity_array.
  rewrite (nth_zip_with _ _ _ i 0 (0, 0) (0, 0)) by (rewrite ?length_map; lia).
  rewrite (nth_indep _ (0, 0) (direction 0)) by (rewrite length_map; lia).
  rewrite map_nth. apply norm_scaled_direction.
Qed.

End Reinitialisation.

Lemma harmonic_unit_draws : unit_draws (G := nat).
Proof.
  intros g. simpl. pose proof (pos_INR g) as Hg.
  assert (Hpos : 0 < INR g + 2) by lra.
  split.
  - left. now apply Rinv_0_lt_compat.
  - rewrite <- Rinv_1. apply Rinv_lt_contravar; lra.
Qed.

Lemma init_state_fills_the_box_witness :
  unit_draws (G := nat) /\ (0 < _length aligned_flock)%Z /\
  in_box (init_state true 0 aligned_flock).
Proof.
  assert (HL : (0 < _length aligned_flock)%Z) by (simpl; lia).
  split; [exact harmonic_unit_draws|]. split; [exact HL|].
  apply (init_state_fills_the_box true 0 aligned_flock harmonic_unit_draws HL).
Defined.

Lemma resizing_keeps_the_old_vectors_witness :
  valid_state two_particles /\ _reset_flag two_particles = true /\
  (2 <= particles two_particles)%Z /\
  particles (with_length 4 two_particles) <> particles two_particles /\
  particles (with_length 4 two_particles) <> 1%Z /\
  is_ValueError (snd (set_length 4 0 two_particles)) /\
  _trajectory (fst (set_length 4 0 two_particles)) = _trajectory two_particles /\
  length (_speed (fst (set_length 4 0 two_particles))) = 2%nat /\
  length (_positions (fst (set_length 4 0 two_particles))) = 8%nat.
Proof.
  assert (E8 : particles (with_length 4 two_particles) = 8%Z)
    by exact count_particles_four.
  assert (H2 : (2 <= particles two_particles)%Z)
    by (rewrite particles_two_particles; lia).
  assert (Hne : particles (with_length 4 two_particles) <> particles two_particles)
    by (rewrite E8, particles_two_particles; lia).
  assert (H1 : particles (with_length 4 two_particles) <> 1%Z)
    by (rewrite E8; lia).
  split; [exact two_particles_valid|]. split; [reflexivity|].
  split; [exact H2|]. split; [exact Hne|]. split; [exact H1|].
  destruct (resizing_keeps_the_old_vectors 4 1 0 two_particles
              two_particles_valid eq_refl) as (_ & _ & Hhalf & _).
  destruct (Hhalf H2 Hne H1)
    as (Herr & _ & _ & Hsp & _ & _ & _ & Htr & _ & Hpos & _).
  split; [exact Herr|]. split; [exact Htr|].
  split; [now rewrite Hsp|]. now rewrite Hpos, E8.
Defined.

Lemma velocities_have_the_speeds_witness :
  valid_state two_particles /\ (1 < Z.to_nat (particles two_particles))%nat /\
  norm (nth 1 (velocities two_particles) (0, 0)) =
    Rabs (nth 1 (_speed two_particles) 0).
Proof.
  assert (Hi : (1 < Z.to_nat (particles two_particles))%nat)
    by (rewrite particles_two_particles; simpl; lia).
  split; [exact two_particles_valid|]. split; [exact Hi|].
  apply (velocities_have_the_speeds two_particles 1 two_particles_valid Hi).
Defined.

(** ** The new headings of a step *)

Lemma sqrt_sum_squares_factor (x y : R) :
  x <> 0 ->
  sqrt (x * x + y * y) = Rabs x * sqrt (1 + (y / x)²).
Proof.
  intros Hx.
  replace (x * x + y * y) with (Rsqr x * (1 + (y / x)²))
    by (unfold Rsqr; field; exact Hx).
  rewrite sqrt_mult_alt by apply Rle_0_sqr.
  now rewrite sqrt_Rsqr_abs.
Qed.

Lemma sqrt_one_plus_square_pos (t : R) : 0 < sqrt (1 + t²).
Proof. apply sqrt_lt_R0. pose proof (Rle_0_sqr t). lra. Qed.

(** [np.arctan2 y x] is the angle of the vector [(x, y)]. *)
Lemma direction_np_arctan2 (y x : R) :
  (x, y) <> (0, 0) ->
  direction (np_arctan2 y x) =
    (x / sqrt (x * x + y * y), y / sqrt (x * x + y * y)).
Proof.
  intros Hne. unfold direction, np_arctan2.
  pose proof (sqrt_one_plus_square_pos (y / x)) as Hq.
  destruct (Rltb 0 x) eqn:Hx.
  - apply Rltb_true in Hx.
    rewrite cos_atan, sin_atan, sqrt_sum_squares_factor, Rabs_right by lra.
    f_equal; field; lra.
  - apply Rltb_false in Hx. destruct (Rltb x 0) eqn:Hx'.
    + apply Rltb_true in Hx'.
      assert (Hfac : sqrt (x * x + y * y) = - x * sqrt (1 + (y / x)²))
        by (rewrite sqrt_sum_squares_factor, Rabs_left by lra; reflexivity).
      destruct (Rltb y 0).
      * rewrite cos_minus, sin_minus, cos_PI, sin_PI, cos_atan, sin_atan, Hfac.
        f_equal; field; lra.
      * rewrite neg_cos, neg_sin, cos_atan, sin_atan, Hfac.
        f_equal; field; lra.
    + apply Rltb_false in Hx'. assert (x = 0) by lra. subst x.
      assert (Hy : y <> 0) by (intros ->; now apply Hne).
      replace (0 * 0 + y * y) with (Rsqr y) by (unfold Rsqr; ring).
      rewrite sqrt_Rsqr_abs.
      destruct (Rltb 0 y) eqn:Hy1.
      * apply Rltb_true in Hy1. rewrite cos_PI2, sin_PI2, Rabs_right by lra.
        f_equal; field; lra.
      * apply Rltb_false in Hy1.
        assert (Hy2 : Rltb y 0 = true) by (apply Rltb_true; lra).
        rewrite Hy2, cos_neg, sin_neg, cos_PI2, sin_PI2, Rabs_left by lra.
        f_equal; field; lra.
Qed.

Lemma np_arctan2_range (y x : R) : - PI < np_arctan2 y x <= PI.
Proof.
  unfold np_arctan2. pose proof PI_RGT_0 as Hpi.
  pose proof (atan_bound (y / x)) as Hb.
  destruct (Rltb 0 x) eqn:Hx; [lra|].
  apply Rltb_false in Hx. destruct (Rltb x 0) eqn:Hx'.
  - apply Rltb_true in Hx'. destruct (Rltb y 0) eqn:Hy.
    + apply Rltb_true in Hy.
      assert (Ht : 0 < y / x).
      { unfold Rdiv. replace (y * / x) with ((- y) * / (- x)) by (field; lra).
        apply Rmult_lt_0_compat; [lra|]. apply Rinv_0_lt_compat. lra. }
      pose proof (atan_increasing 0 (y / x) Ht) as Hinc.
      rewrite atan_0 in Hinc. lra.
    + apply Rltb_false in Hy.
      assert (Ht : y / x <= 0).
      { unfold Rdiv. replace (y * / x) with (- (y * / (- x))) by (field; lra).
        assert (0 <= y * / (- x)); [|lra].
        apply Rmult_le_pos; [lra|]. left. apply Rinv_0_lt_compat. lra. }
      destruct Ht as [Ht|Ht].
      * pose proof (atan_increasing (y / x) 0 Ht) as Hinc.
        rewrite atan_0 in Hinc. lra.
      * rewrite Ht, atan_0. lra.
  - destruct (Rltb 0 y); [lra|]. destruct (Rltb y 0); lra.
Qed.

Section Headings.

Context {G : Type} `{BitGenerator G} `{Rounding}.

(** The heading [step] gives particle [i]: the angle of its neighbour sum
    plus its noise term, where [u] are the draws of the step. *)
Lemma step_heading (self : VicsekModel G) (i : nat) :
  valid_state self ->
  (i < Z.to_nat (particles self))%nat ->
  let u := fst (random (Z.to_nat (particles self)) (_rng self)) in
  nth i (_headings (step self)) 0 =
    np_arctan2 (snd (neighbour_sum self i)) (fst (neighbour_sum self i)) +
    (nth i u 0 - 0.5) * nth i (_noise self) 0.
Proof.
  intros Hv Hi u. pose proof Hv as (_ & _ & _ & _ & _ & Hn & _).
  unfold step. subst u.
  pose proof (random_length (Z.to_nat (particles self)) (_rng self)) as Hu.
  destruct (random (Z.to_nat (particles self)) (_rng self)) as [u rng].
  simpl in Hu. simpl _headings. simpl fst.
  pose proof (sum_of_sines_length self Hv) as Hsl.
  pose proof (sum_of_cosines_length self Hv) as Hcl.
  rewrite (nth_zip_with _ _ _ i 0 0 0)
    by (rewrite !length_zip_with, ?length_map; lia).
  rewrite (nth_zip_with _ _ _ i 0 0 0) by lia.
  rewrite (nth_zip_with _ _ _ i 0 0 0) by (rewrite ?length_map; lia).
  rewrite (nth_indep (map (fun x => x - 0.5) u) 0 (0 - 0.5))
    by (rewrite length_map; lia).
  rewrite (map_nth (fun x => x - 0.5)). reflexivity.
Qed.

(** X16. The heading update of a step. When the generator draws from
    [[0, 1)], the new heading of particle [i] is within [|noise[i]| / 2] of
    the angle [atan2] gives the weighted sum of the direction vectors of the
    particles that contribute to [i]; that angle lies in [(-pi, pi]] and,
    the sum not being the null vector, points along the sum. *)
Theorem step_turns_towards_the_neighbours :
  forall (self : VicsekModel G) (i : nat),
    unit_draws ->
    valid_state self ->
    (i < Z.to_nat (particles self))%nat ->
    let s := neighbour_sum self i in
    let angle := np_arctan2 (snd s) (fst s) in
    Rabs (nth i (_headings (step self)) 0 - angle) <=
      Rabs (nth i (_noise self) 0) / 2 /\
    - PI < angle <= PI /\
    (s <> (0, 0) -> direction angle = (fst s / norm s, snd s / norm s)).
Proof.
  intros self i Hunit Hv Hi s angle. split; [|split].
  - rewrite step_heading by assumption. fold s. fold angle.
    set (u := nth i (fst (random (Z.to_nat (particles self)) (_rng self))) 0).
    assert (Hu : 0 <= u < 1).
    { pose proof (random_draws (Z.to_nat (particles self)) (_rng self) Hunit) as Hall.
      rewrite Forall_forall in Hall. apply Hall, nth_In.
      now rewrite random_length. }
    replace (angle + (u - 0.5) * nth i (_noise self) 0 - angle)
      with ((u - 0.5) * nth i (_noise self) 0) by ring.
    rewrite Rabs_mult.
    assert (Hhalf : Rabs (u - 0.5) <= 1 / 2) by (apply Rabs_le; lra).
    pose proof (Rabs_pos (nth i (_noise self) 0)). nra.
  - apply np_arctan2_range.
  - intros Hs. unfold angle, norm. apply direction_np_arctan2.
    now destruct s.
Qed.

End Headings.

(** ** Aligned flocks *)

Lemma Rsum_scaled (c : nat -> bool) (w f : nat -> R) (v : R) (l : list nat) :
  (forall j, In j l -> f j = v) ->
  Rsum (map (fun j => if c j then w j * f j else 0) l) =
    Rsum (map (fun j => if c j then w j else 0) l) * v.
Proof.
  intros Hf. induction l as [|j l IH]; simpl; [ring|].
  rewrite IH by (intros k Hk; apply Hf; now right).
  rewrite (Hf j) by now left.
  destruct (c j); ring.
Qed.

Lemma Rsum_nonneg (g : nat -> R) (l : list nat) :
  (forall j, In j l -> 0 <= g j) -> 0 <= Rsum (map g l).
Proof.
  intros Hg. induction l as [|j l IH]; simpl; [lra|].
  pose proof (Hg j (or_introl eq_refl)).
  assert (0 <= Rsum (map g l)) by (apply IH; intros k Hk; apply Hg; now right).
  lra.
Qed.

Lemma Rsum_positive (g : nat -> R) (l : list nat) (i : nat) :
  (forall j, In j l -> 0 <= g j) -> In i l -> 0 < g i -> 0 < Rsum (map g l).
Proof.
  intros Hg Hi Hpos. induction l as [|j l IH]; [contradiction|]. simpl.
  assert (Hrest : 0 <= Rsum (map g l))
    by (apply Rsum_nonneg; intros k Hk; apply Hg; now right).
  destruct Hi as [->|Hi].
  - lra.
  - pose proof (Hg j (or_introl eq_refl)).
    assert (0 < Rsum (map g l)) by (apply IH; [intros k Hk; apply Hg; now right | exact Hi]).
    lra.
Qed.

Lemma order_parameter_of_directions (speed h h' : list R) :
  map direction h = map direction h' ->
  order_parameter_of speed h = order_parameter_of speed h'.
Proof. intros E. unfold order_parameter_of, velocity_array. now rewrite E. Qed.

Lemma aligned_directions (theta : R) (h : list R) :
  Forall (fun a => direction a = direction theta) h ->
  map direction h = repeat (direction theta) (length h).
Proof.
  induction 1 as [|a h Ha _ IH]; [reflexivity|]. simpl. now rewrite Ha, IH.
Qed.

Section AlignedFlocks.

Context {G : Type} `{BitGenerator G} `{Rounding}.

(** The conditions under which alignment persists: positive weights and
    radii, no noise. *)
Local Abbreviation quiet self :=
  (Forall (fun w => 0 < w) (_weights self) /\
   Forall (fun r => 0 < r) (_radius self) /\
   Forall (fun e => e = 0) (_noise self)).

Lemma aligned_neighbour_sum (self : VicsekModel G) (theta : R) (i : nat) :
  valid_state self ->
  quiet self ->
  Forall (fun a => direction a = direction theta) (_headings self) ->
  (i < Z.to_nat (particles self))%nat ->
  exists W, 0 < W /\ neighbour_sum self i = (W * cos theta, W * sin theta).
Proof.
  intros Hv (Hw & Hr & _) Ha Hi.
  pose proof Hv as (_ & _ & _ & Hhl & _ & _ & Hrl & Hwl).
  set (N := Z.to_nat (particles self)) in *.
  exists (Rsum (map (fun j => if contributes self i j
                              then nth j (_weights self) 0 else 0) (seq 0 N))).
  assert (Hwpos : forall j, (j < N)%nat -> 0 < nth j (_weights self) 0).
  { intros j Hj. rewrite Forall_forall in Hw. apply Hw, nth_In. lia. }
  assert (Hdir : forall j, In j (seq 0 N) ->
            direction (nth j (_headings self) 0) = direction theta).
  { intros j Hj. apply in_seq in Hj. rewrite Forall_forall in Ha.
    apply Ha, nth_In. lia. }
  split.
  - apply Rsum_positive with i.
    + intros j Hj. apply in_seq in Hj.
      destruct (contributes self i j); [|lra]. left. apply Hwpos. lia.
    + apply in_seq. lia.
    + assert (Hc : contributes self i i = true).
      { apply (contributes_iff self Hv i i Hi Hi).
        unfold separation. rewrite euclidean_refl.
        rewrite Forall_forall in Hr. apply Hr, nth_In. lia. }
      rewrite Hc. now apply Hwpos.
  - unfold neighbour_sum, sum_of_cosines, sum_of_sines.
    rewrite !(weighted_row_sum self Hv) by exact Hi. fold N.
    rewrite (Rsum_scaled _ _ _ (cos theta)), (Rsum_scaled _ _ _ (sin theta)).
    + reflexivity.
    + intros j Hj. pose proof (Hdir j Hj) as E. unfold direction in E. congruence.
    + intros j Hj. pose proof (Hdir j Hj) as E. unfold direction in E. congruence.
Qed.

Lemma aligned_step (self : VicsekModel G) (theta : R) :
  valid_state self ->
  quiet self ->
  Forall (fun a => direction a = direction theta) (_headings self) ->
  Forall (fun a => direction a = direction theta) (_headings (step self)).
Proof.
  intros Hv Hq Ha. pose proof Hv as (_ & _ & _ & _ & _ & Hnl & _).
  destruct (step_lengths self Hv) as [Hl _].
  apply Forall_forall. intros a Hin.
  destruct (In_nth _ _ 0 Hin) as (i & Hi & <-). rewrite Hl in Hi.
  rewrite step_heading by assumption.
  destruct (aligned_neighbour_sum self theta i Hv Hq Ha Hi) as (W & HW & ->).
  assert (Hn : nth i (_noise self) 0 = 0).
  { destruct Hq as (_ & _ & Hn). rewrite Forall_forall in Hn.
    apply Hn, nth_In. lia. }
  rewrite Hn, Rmult_0_r, Rplus_0_r. simpl fst. simpl snd.
  pose proof (sin2_cos2 theta) as Hsc. unfold Rsqr in Hsc.
  rewrite direction_np_arctan2.
  - replace (W * cos theta * (W * cos theta) + W * sin theta * (W * sin theta))
      with (Rsqr W * (sin theta * sin theta + cos theta * cos theta))
      by (unfold Rsqr; ring).
    rewrite Hsc, Rmult_1_r, sqrt_Rsqr by lra.
    unfold direction. f_equal; field; lra.
  - intros E. injection E as Ec Es. nra.
Qed.

Lemma aligned_step_times (k : nat) (self : VicsekModel G) (theta : R) :
  valid_state self ->
  quiet self ->
  Forall (fun a => direction a = direction theta) (_headings self) ->
  Forall (fun a => direction a = direction theta) (_headings (step_times k self)).
Proof.
  revert self. induction k as [|k IH]; intros self Hv Hq Ha; [exact Ha|].
  simpl. apply IH.
  - now apply step_valid.
  - destruct (step_frame_fields self) as (_ & Er & En & Ew & _).
    now rewrite Er, En, Ew.
  - now apply aligned_step.
Qed.

(** X17. A flock that is aligned stays aligned. In a valid state with
    positive weights, positive radii and no noise whose headings all point
    in the direction of [theta], every run of [evolve], however long and in
    either mode, leaves all headings pointing in that direction and the
    order parameter as it was. *)
Theorem aligned_flock_stays_aligned :
  forall (steps : Z) (track_order_parameter : bool) (interval : Z)
         (pbar : option tqdm) (self : VicsekModel G) (theta : R),
    valid_state self ->
    Forall (fun w => 0 < w) (_weights self) ->
    Forall (fun r => 0 < r) (_radius self) ->
    Forall (fun e => e = 0) (_noise self) ->
    Forall (fun a => direction a = direction theta) (_headings self) ->
    let self' := fst (fst (evolve steps track_order_parameter interval pbar self)) in
    Forall (fun a => direction a = direction theta) (_headings self') /\
    order_parameter self' = order_parameter self.
Proof.
  intros steps track interval pbar self theta Hv Hw Hr Hn Ha self'.
  destruct (evolve_state steps track interval pbar self) as (t & k & E).
  unfold self'. rewrite E.
  change (_headings (with_trajectory t (step_times k self)))
    with (_headings (step_times k self)).
  change (order_parameter (with_trajectory t (step_times k self)))
    with (order_parameter (step_times k self)).
  assert (Ha' : Forall (fun a => direction a = direction theta)
                  (_headings (step_times k self)))
    by (apply aligned_step_times; tauto).
  split; [exact Ha'|].
  unfold order_parameter.
  destruct (step_times_keeps_configuration k self) as (_ & _ & <- & _).
  apply order_parameter_of_directions.
  rewrite (aligned_directions theta _ Ha'), (aligned_directions theta _ Ha).
  f_equal.
  destruct (step_times_in_box_lengths k self Hv) as [Hl _].
  destruct Hv as (_ & _ & _ & Hh & _). now rewrite Hl, Hh.
Qed.

End AlignedFlocks.

Lemma particles_aligned_flock : particles aligned_flock = 3%Z.
Proof.
  unfold particles, count_particles. simpl _density. simpl _length.
  replace (1 / 3 * IZR (3 ^ 2)) with (IZR 3) by (simpl; lra).
  apply int_of_float_IZR.
Qed.

Lemma aligned_flock_valid : valid_state aligned_flock.
Proof.
  unfold valid_state. rewrite particles_aligned_flock. simpl.
  repeat split; try reflexivity; lia.
Qed.

Lemma step_turns_towards_the_neighbours_witness :
  unit_draws (G := nat) /\ valid_state aligned_flock /\
  (0 < Z.to_nat (particles aligned_flock))%nat /\
  Rabs (nth 0 (_headings (step aligned_flock)) 0 -
        np_arctan2 (snd (neighbour_sum aligned_flock 0))
          (fst (neighbour_sum aligned_flock 0))) <=
    Rabs (nth 0 (_noise aligned_flock) 0) / 2.
Proof.
  assert (Hi : (0 < Z.to_nat (particles aligned_flock))%nat)
    by (rewrite particles_aligned_flock; simpl; lia).
  split; [exact harmonic_unit_draws|]. split; [exact aligned_flock_valid|].
  split; [exact Hi|].
  apply (step_turns_towards_the_neighbours aligned_flock 0
           harmonic_unit_draws aligned_flock_valid Hi).
Defined.

Lemma aligned_flock_stays_aligned_witness :
  valid_state aligned_flock /\
  Forall (fun w => 0 < w) (_weights aligned_flock) /\
  Forall (fun r => 0 < r) (_radius aligned_flock) /\
  Forall (fun e => e = 0) (_noise aligned_flock) /\
  Forall (fun a => direction a = direction 1) (_headings aligned_flock) /\
  order_parameter (fst (fst (evolve 10 true 5 None aligned_flock))) =
    order_parameter aligned_flock.
Proof.
  assert (Hw : Forall (fun w => 0 < w) (_weights aligned_flock))
    by (simpl; repeat constructor; lra).
  assert (Hr : Forall (fun r => 0 < r) (_radius aligned_flock))
    by (simpl; repeat constructor; lra).
  assert (Hn : Forall (fun e => e = 0) (_noise aligned_flock))
    by (simpl; repeat constructor).
  assert (Ha : Forall (fun a => direction a = direction 1) (_headings aligned_flock))
    by (simpl; repeat constructor).
  repeat (split; [assumption || exact aligned_flock_valid|]).
  apply (aligned_flock_stays_aligned 10 true 5 None aligned_flock 1
           aligned_flock_valid Hw Hr Hn Ha).
Defined.

(** ** The far edge of the box *)

Lemma step_position {G : Type} `{BitGenerator G} `{Rounding}
    (self : VicsekModel G) (i : nat) :
  valid_state self ->
  (i < Z.to_nat (particles self))%nat ->
  nth i (_positions (step self)) (0, 0) =
    wrap (_length self)
      (add2 (nth i (_positions self) (0, 0))
         (scale (nth i (_speed self) 0)
            (direction (nth i (_headings (step self)) 0)))).
Proof.
  intros Hv Hi. pose proof Hv as (_ & _ & Hp & _ & Hs & _).
  pose proof (step_lengths self Hv) as [Hh _]. revert Hh. unfold step.
  destruct (random (Z.to_nat (particles self)) (_rng self)) as [u rng].
  simpl _headings. simpl _positions.
  set (h := zip_with Rplus _ _). intros Hh.
  assert (Hv' : length (velocity_array (_speed self) h) = Z.to_nat (particles self))
    by (rewrite velocity_array_length; lia).
  rewrite (nth_indep _ (0, 0) (wrap (_length self) (0, 0)))
    by (rewrite length_map, length_zip_with; lia).
  rewrite map_nth.
  rewrite (nth_zip_with add2 _ _ i (0, 0) (0, 0) (0, 0)) by lia.
  unfold velocity_array.
  rewrite (nth_zip_with scale _ _ i 0 (0, 0) (0, 0)) by (rewrite ?length_map; lia).
  rewrite (nth_indep (map direction h) (0, 0) (direction 0))
    by (rewrite length_map; lia).
  now rewrite map_nth.
Qed.

Lemma particles_on_the_edge : particles on_the_edge = 1%Z.
Proof.
  unfold particles, count_particles. simpl _density. simpl _length.
  replace (1 / 100 * IZR (10 ^ 2)) with (IZR 1) by (simpl; lra).
  apply int_of_float_IZR.
Qed.

Lemma on_the_edge_valid : valid_state on_the_edge.
Proof.
  unfold valid_state. rewrite particles_on_the_edge. simpl.
  repeat split; try reflexivity; lia.
Qed.

(** The particle of [on_the_edge] keeps its heading: it is its own only
    neighbour and there is no noise. *)
Lemma on_the_edge_heading : nth 0 (_headings (step on_the_edge)) 0 = PI.
Proof.
  assert (Hi : (0 < Z.to_nat (particles on_the_edge))%nat)
    by (rewrite particles_on_the_edge; simpl; lia).
  rewrite (step_heading on_the_edge 0 on_the_edge_valid Hi).
  assert (Hc : contributes on_the_edge 0 0 = true).
  { apply (contributes_iff on_the_edge on_the_edge_valid 0 0 Hi Hi).
    unfold separation. rewrite euclidean_refl. simpl. lra. }
  unfold neighbour_sum, sum_of_cosines, sum_of_sines.
  rewrite !(weighted_row_sum on_the_edge on_the_edge_valid) by exact Hi.
  rewrite particles_on_the_edge.
  change (seq 0 (Z.to_nat 1)) with [0%nat]. simpl map. rewrite Hc.
  simpl. rewrite sin_PI, cos_PI.
  replace (1 * 0 + 0) with 0 by ring. replace (1 * -1 + 0) with (-1) by ring.
  unfold np_arctan2.
  assert (E1 : Rltb 0 (-1) = false) by (apply Rltb_false; lra).
  assert (E2 : Rltb (-1) 0 = true) by (apply Rltb_true; lra).
  assert (E3 : Rltb 0 0 = false) by (apply Rltb_false; lra).
  rewrite E1, E2, E3.
  replace (0 / -1) with 0 by (field; lra). rewrite atan_0. ring.
Qed.

Lemma np_mod_half_way : np_mod 5 10 = 5.
Proof.
  unfold np_mod, fmod, int_of_float.
  assert (E1 : Rltb (5 / 10) 0 = false) by (apply Rltb_false; lra).
  rewrite E1, (Zfloor_eq 0) by (simpl; lra).
  replace (5 - 10 * 0) with 5 by ring.
  assert (E2 : Reqb 5 0 = false) by (apply Reqb_false; lra).
  assert (E3 : Rltb 10 0 = false) by (apply Rltb_false; lra).
  assert (E4 : Rltb 5 0 = false) by (apply Rltb_false; lra).
  now rewrite E2, E3, E4.
Qed.

(** The sum [10 - 2^-52] of [np.mod] lies between 8 and 16, where binary64
    has the spacing [2^-49]: it is rounded to 10. *)
Lemma np_mod_just_below_zero : np_mod (- / IZR (2 ^ 52)) 10 = 10.
Proof.
  pose proof grid_size_positive as HP.
  assert (E52 : IZR (2 ^ 52) = 8 * IZR (2 ^ 49))
    by (change (2 ^ 52)%Z with (8 * 2 ^ 49)%Z; now rewrite mult_IZR).
  rewrite E52. set (P := IZR (2 ^ 49)) in *.
  assert (Heps : 0 < / (8 * P)) by (apply Rinv_0_lt_compat; lra).
  assert (Heps1 : / (8 * P) * P = 1 / 8) by (field; lra).
  assert (Hsmall : / (8 * P) < 1).
  { rewrite <- Rinv_1. apply Rinv_lt_contravar; [|unfold P].
    - lra.
    - apply (Rlt_le_trans _ 8); [lra|].
      assert (H1 : 1 <= IZR (2 ^ 49))
        by (apply IZR_le; unfold Z.le; vm_compute; discriminate).
      fold P in H1. lra. }
  unfold np_mod, fmod, int_of_float.
  assert (E1 : Rltb (- / (8 * P) / 10) 0 = true) by (apply Rltb_true; lra).
  rewrite E1, (Zceil_eq 0) by (simpl; lra).
  replace (- / (8 * P) - 10 * 0) with (- / (8 * P)) by ring.
  assert (E2 : Reqb (- / (8 * P)) 0 = false) by (apply Reqb_false; lra).
  assert (E3 : Rltb 10 0 = false) by (apply Rltb_false; lra).
  assert (E4 : Rltb (- / (8 * P)) 0 = true) by (apply Rltb_true; lra).
  rewrite E2, E3, E4. simpl xorb.
  change (fl (- / (8 * P) + 10))
    with (IZR (round_half_even ((- / (8 * P) + 10) * P)) / P).
  assert (Et : (- / (8 * P) + 10) * P = 10 * P - 1 / 8) by (rewrite <- Heps1; ring).
  rewrite Et. unfold round_half_even.
  assert (Ef : Zfloor (10 * P - 1 / 8) = (10 * 2 ^ 49 - 1)%Z).
  { apply Zfloor_eq. rewrite minus_IZR, mult_IZR. fold P. lra. }
  rewrite Ef, minus_IZR, mult_IZR. fold P.
  assert (E5 : Rltb (10 * P - 1 / 8 - (10 * P - 1)) (1 / 2) = false)
    by (apply Rltb_false; lra).
  assert (E6 : Rltb (1 / 2) (10 * P - 1 / 8 - (10 * P - 1)) = true)
    by (apply Rltb_true; lra).
  rewrite E5, E6.
  replace (10 * 2 ^ 49 - 1 + 1)%Z with (10 * 2 ^ 49)%Z by lia.
  rewrite mult_IZR. fold P. field. lra.
Qed.

(** C6, as stated, fails. The particle of [on_the_edge] moves from [x = 1]
    by [-(1 + 2^-52)]; [np.mod] adds 10 to the remainder [-2^-52] and the
    sum is rounded to 10: after the step the particle is at [x = 10], the
    box length, not below it. *)
Lemma step_reaches_the_far_edge :
  valid_state on_the_edge /\
  nth 0 (_positions (step on_the_edge)) (0, 0) = (10, 5) /\
  ~ fst (nth 0 (_positions (step on_the_edge)) (0, 0)) <
      IZR (_length on_the_edge).
Proof.
  assert (Hi : (0 < Z.to_nat (particles on_the_edge))%nat)
    by (rewrite particles_on_the_edge; simpl; lia).
  assert (E : nth 0 (_positions (step on_the_edge)) (0, 0) = (10, 5)).
  { rewrite (step_position on_the_edge 0 on_the_edge_valid Hi).
    rewrite on_the_edge_heading.
    change (nth 0 (_positions on_the_edge) (0, 0)) with (1, 5).
    change (nth 0 (_speed on_the_edge) 0) with (1 + / IZR (2 ^ 52)).
    change (_length on_the_edge) with 10%Z.
    unfold wrap, add2, scale, direction. cbn [fst snd].
    rewrite cos_PI, sin_PI.
    replace (1 + (1 + / IZR (2 ^ 52)) * -1) with (- / IZR (2 ^ 52)) by ring.
    replace (5 + (1 + / IZR (2 ^ 52)) * 0) with 5 by ring.
    now rewrite np_mod_just_below_zero, np_mod_half_way. }
  split; [exact on_the_edge_valid|]. split; [exact E|].
  rewrite E. change (_length on_the_edge) with 10%Z. cbn [fst]. lra.
Qed.
